(** * ArraybufferToWav: a shallow embedding of [lib.js]

    The library turns an array of floating-point samples into the bytes of a
    mono, 16-bit PCM RIFF/WAVE file.  It consists of three functions:

    - the default export (called [encode] here), which allocates an
      [ArrayBuffer], writes the 44-byte header through a [DataView], calls
      [floatTo16BitPCM] and wraps the buffer in a [Blob];
    - [clamp];
    - [floatTo16BitPCM].

    JavaScript numbers are IEEE 754 binary64 values; they are modelled by
    [spec_float] at precision 53 and maximal exponent 1024, with the
    operations of [SpecFloat] (round to nearest, ties to even).  The
    [DataView] is modelled by a state-and-exception monad over the bytes of
    the underlying buffer: a typed write converts its number with
    [ToUint32], [ToUint16] or [ToInt16] and stores the bytes, or throws a
    [RangeError] when they do not fit.

    The input is an array of numbers without holes (a list); the size of
    the buffer and the byte offsets are natural numbers; the allocation of
    the buffer succeeds. *)

From Stdlib Require Import ZArith Lia Bool String Ascii.
From Stdlib Require Import Floats.SpecFloat.
From stdpp Require Import base tactics option list.

Local Open Scope Z_scope.

(** ** JavaScript numbers *)

Module Number.

Definition prec : Z := 53.
Definition emax : Z := 1024.

Definition number : Type := spec_float.

(** A double is well formed when its mantissa and exponent are the
    canonical ones. *)
Definition valid (x : number) : bool := valid_binary prec emax x.

(** The number denoted by an integer literal (exact below [2^53]). *)
Definition of_Z (z : Z) : number := binary_normalize prec emax z 0 false.

Definition NaN : number := S754_nan.

(** [Number.isNaN]. *)
Definition isNaN (x : number) : bool :=
  match x with
  | S754_nan => true
  | _ => false
  end.

Definition add : number -> number -> number := SFadd prec emax.
Definition mul : number -> number -> number := SFmul prec emax.
Definition div : number -> number -> number := SFdiv prec emax.

(** [x < y] and [x > y]; both are [false] when an operand is [NaN]. *)
Definition ltb (x y : number) : bool := SFltb x y.
Definition gtb (x y : number) : bool := SFltb y x.
Definition leb (x y : number) : bool := SFleb x y.

(** The mathematical function [truncate] of ECMA-262 on a finite number:
    the integer part, rounding toward zero. *)
Definition truncate (s : bool) (m : positive) (e : Z) : Z :=
  cond_Zopp s (Z.shiftl (Zpos m) e).

(** Integer part of a number, when it has one. *)
Definition trunc (x : number) : option Z :=
  match x with
  | S754_zero _ => Some 0
  | S754_finite s m e => Some (truncate s m e)
  | S754_infinity _ | S754_nan => None
  end.

(** ECMA-262 [ToUint32], [ToUint16] and [ToInt16]: NaN, the zeros and the
    infinities go to [0]; other numbers are truncated and reduced modulo
    [2^32] (resp. [2^16]). *)
Definition ToUint32 (x : number) : Z :=
  match x with
  | S754_finite s m e => truncate s m e mod 2 ^ 32
  | _ => 0
  end.

Definition ToUint16 (x : number) : Z :=
  match x with
  | S754_finite s m e => truncate s m e mod 2 ^ 16
  | _ => 0
  end.

Definition ToInt16 (x : number) : Z :=
  match x with
  | S754_finite s m e =>
      let int16bit := truncate s m e mod 2 ^ 16 in
      if 2 ^ 15 <=? int16bit then int16bit - 2 ^ 16 else int16bit
  | _ => 0
  end.

End Number.

Import Number.

(** ** ArrayBuffer and DataView *)

(** Outcome of a computation that may throw. *)
Inductive exn : Type := RangeError.

Inductive completion (A : Type) : Type :=
| Normal (a : A)
| Throw (e : exn).
Arguments Normal {A} a.
Arguments Throw {A} e.

Module DataView.

(** A byte is an integer in [0, 256); a buffer is its list of bytes. *)
Abbreviation ArrayBuffer := (list Z) (only parsing).

(** [new ArrayBuffer(length)]: [length] zero bytes. *)
Definition new_ArrayBuffer (length : nat) : ArrayBuffer := replicate length 0.

(** Operations of a [DataView] spanning a whole buffer: they read and
    update the bytes of the buffer, or throw. *)
Definition view (A : Type) : Type := ArrayBuffer -> completion (A * ArrayBuffer).

Definition ret {A} (a : A) : view A := fun buf => Normal (a, buf).

Definition bind {A B} (c : view A) (k : A -> view B) : view B :=
  fun buf =>
    match c buf with
    | Normal (a, buf') => k a buf'
    | Throw e => Throw e
    end.

(** Little-endian bytes of the [n]-byte two's complement encoding. *)
Fixpoint le_bytes (n : nat) (z : Z) : list Z :=
  match n with
  | O => []
  | S n' => z mod 256 :: le_bytes n' (z / 256)
  end.

(** ECMA-262 [NumericToRawBytes]. *)
Definition raw_bytes (n : nat) (z : Z) (littleEndian : bool) : list Z :=
  if littleEndian then le_bytes n z else rev (le_bytes n z).

(** Value of little-endian bytes ([RawBytesToNumeric], unsigned). *)
Fixpoint le_value (bs : list Z) : Z :=
  match bs with
  | [] => 0
  | b :: bs' => b + 256 * le_value bs'
  end.

Definition raw_value (bs : list Z) (littleEndian : bool) : Z :=
  if littleEndian then le_value bs else le_value (rev bs).

(** ECMA-262 [SetViewValue]: a [RangeError] when the element does not fit
    in the view, otherwise the bytes are stored at [byteOffset]. *)
Definition store (byteOffset : nat) (bs : list Z) : view unit :=
  fun buf =>
    if (byteOffset + length bs <=? length buf)%nat
    then Normal (tt, take byteOffset buf ++ bs ++ drop (byteOffset + length bs) buf)
    else Throw RangeError.

Definition setUint32 (byteOffset : nat) (value : number) (littleEndian : bool) : view unit :=
  store byteOffset (raw_bytes 4 (ToUint32 value) littleEndian).

Definition setUint16 (byteOffset : nat) (value : number) (littleEndian : bool) : view unit :=
  store byteOffset (raw_bytes 2 (ToUint16 value) littleEndian).

Definition setInt16 (byteOffset : nat) (value : number) (littleEndian : bool) : view unit :=
  store byteOffset (raw_bytes 2 (ToInt16 value) littleEndian).

(** ECMA-262 [GetViewValue], on a buffer: [None] stands for the
    [RangeError] of a read past the end. *)
Definition load (byteOffset n : nat) (buf : ArrayBuffer) : option (list Z) :=
  if (byteOffset + n <=? length buf)%nat
  then Some (take n (drop byteOffset buf))
  else None.

Definition getUint32 (buf : ArrayBuffer) (byteOffset : nat) (littleEndian : bool) : option Z :=
  bs ← load byteOffset 4 buf; Some (raw_value bs littleEndian).

Definition getUint16 (buf : ArrayBuffer) (byteOffset : nat) (littleEndian : bool) : option Z :=
  bs ← load byteOffset 2 buf; Some (raw_value bs littleEndian).

Definition getInt16 (buf : ArrayBuffer) (byteOffset : nat) (littleEndian : bool) : option Z :=
  bs ← load byteOffset 2 buf;
  let u := raw_value bs littleEndian in
  Some (if 2 ^ 15 <=? u then u - 2 ^ 16 else u).

End DataView.

Import DataView.

Declare Scope view_scope.
Delimit Scope view_scope with view.
Notation "c1 ;; c2" := (bind c1 (fun _ => c2))
  (at level 100, c2 at level 200, right associativity) : view_scope.

(** ** The library *)

Record Blob : Type := { blob_bytes : ArrayBuffer; blob_type : string }.

Module Lib.

(** The second argument of [clamp], [{ max, min }]. *)
Record range : Type := { max : number; min : number }.

(** [export const clamp = (input, { max, min }) => ...] *)
Definition clamp (input : number) (r : range) : number :=
  if gtb input (max r) then max r
  else if ltb input (min r) then min r
  else input.

(** [Array.prototype.forEach], with the index passed to the callback. *)
Fixpoint forEach {A} (callback : A -> nat -> view unit) (input : list A) (index : nat)
  : view unit :=
  match input with
  | [] => ret tt
  | value :: rest => bind (callback value index) (fun _ => forEach callback rest (S index))
  end.

(** The [clampedInput] and [data] of the callback of [floatTo16BitPCM]:
    the number handed to [setInt16] for one sample. *)
Definition quantize (value : number) : number :=
  let clampedInput := clamp value {| max := of_Z 1; min := of_Z (-1) |} in
  if ltb clampedInput (of_Z 0)
  then mul clampedInput (of_Z 0x8000)
  else mul clampedInput (of_Z 0x7FFF).

(** [function floatTo16BitPCM(output, offset, input)] *)
Definition floatTo16BitPCM (offset : nat) (input : list number) : view unit :=
  forEach
    (fun value index =>
       let byteOffset := (offset + index * 2)%nat in
       let data := quantize value in
       setInt16 byteOffset data true)
    input 0%nat.

(** The writes of the default export on its view (lines 52 to 70), where
    [data_length] is the number [data.length]. *)
Definition write_wav (data : list number) (sampleRate : number) : view unit :=
  let data_length := of_Z (Z.of_nat (length data)) in
  (setUint32 0 (of_Z 0x52494646) false ;;
   setUint32 4 (add (of_Z 36) (mul data_length (of_Z 2))) true ;;
   setUint32 8 (of_Z 0x57415645) false ;;
   setUint32 12 (of_Z 0x666d7420) false ;;
   setUint32 16 (of_Z 0x00000010) true ;;
   setUint16 20 (of_Z 0x00000001) true ;;
   setUint16 22 (of_Z 0x00000001) true ;;
   setUint32 24 sampleRate true ;;
   setUint32 28 (div (mul (mul sampleRate (of_Z 2)) (of_Z 1)) (of_Z 8)) true ;;
   setUint16 32 (of_Z 0x00000002) true ;;
   setUint16 34 (of_Z 0x00000010) true ;;
   setUint32 36 (of_Z 0x64617461) false ;;
   setUint32 40 (mul data_length (of_Z 2)) true ;;
   floatTo16BitPCM 44 data)%view.

(** The default export, from the allocated buffer on. *)
Definition encode_in (buffer : ArrayBuffer) (data : list number) (sampleRate : number)
  : completion Blob :=
  match write_wav data sampleRate buffer with
  | Normal (_, buffer') => Normal {| blob_bytes := buffer'; blob_type := "audio/wav" |}
  | Throw e => Throw e
  end.

(** [export default (data, sampleRate = 44100) => ...]; [None] is an
    omitted (or [undefined]) second argument.  The size of the buffer and
    the byte offsets are indices, computed on natural numbers: on integers
    below [2^53] the arithmetic of numbers is that of integers (see
    [length_arithmetic] below).  The allocation is taken to succeed. *)
Definition encode (data : list number) (sampleRate : option number) : completion Blob :=
  let sampleRate := default (of_Z 44100) sampleRate in
  let buffer := new_ArrayBuffer (44 + length data * 2) in
  encode_in buffer data sampleRate.

End Lib.

Import Lib.

(** The range [{ max: 1, min: -1 }] of [floatTo16BitPCM], and the numbers
    [0.5], [1.5] and [-1.5] of the examples of [clamp]. *)
Definition unit_range : range := {| max := of_Z 1; min := of_Z (-1) |}.
Definition half : number := div (of_Z 1) (of_Z 2).
Definition three_halves : number := div (of_Z 3) (of_Z 2).
Definition minus_three_halves : number := div (of_Z (-3)) (of_Z 2).

(** ** The bytes of the file *)

(** The header the thirteen writes leave in the first 44 bytes. *)
Definition header (data_length : number) (sampleRate : number) : list Z :=
  raw_bytes 4 (ToUint32 (of_Z 0x52494646)) false ++
  raw_bytes 4 (ToUint32 (add (of_Z 36) (mul data_length (of_Z 2)))) true ++
  raw_bytes 4 (ToUint32 (of_Z 0x57415645)) false ++
  raw_bytes 4 (ToUint32 (of_Z 0x666d7420)) false ++
  raw_bytes 4 (ToUint32 (of_Z 0x00000010)) true ++
  raw_bytes 2 (ToUint16 (of_Z 0x00000001)) true ++
  raw_bytes 2 (ToUint16 (of_Z 0x00000001)) true ++
  raw_bytes 4 (ToUint32 sampleRate) true ++
  raw_bytes 4 (ToUint32 (div (mul (mul sampleRate (of_Z 2)) (of_Z 1)) (of_Z 8))) true ++
  raw_bytes 2 (ToUint16 (of_Z 0x00000002)) true ++
  raw_bytes 2 (ToUint16 (of_Z 0x00000010)) true ++
  raw_bytes 4 (ToUint32 (of_Z 0x64617461)) false ++
  raw_bytes 4 (ToUint32 (mul data_length (of_Z 2))) true.

(** The two bytes [floatTo16BitPCM] writes for one sample, and the bytes
    it writes for all of them. *)
Definition sample_bytes (value : number) : list Z :=
  raw_bytes 2 (ToInt16 (quantize value)) true.

Definition pcm_bytes (input : list number) : list Z :=
  flat_map sample_bytes input.

(** The codes of the characters of an ASCII string. *)
Definition ascii_bytes (s : string) : list Z :=
  map (fun c => Z.of_N (N_of_ascii c)) (list_ascii_of_string s).

(** An input of 2147483630 samples, for which [36 + N * 2] is [2^32], and
    an input of 2147483648 samples, for which [N * 2] is [2^32]. *)
Definition long_input : list number := replicate (Z.to_nat 2147483630) (of_Z 0).
Definition longer_input : list number := replicate (Z.to_nat 2147483648) (of_Z 0).

(** ** Rounding on integers *)

(** Where a remainder [r] lies in a step of width [h]: at its start, below
    its middle, at its middle or above it. *)
Definition loc_of (r h : Z) : location :=
  if r =? 0 then loc_Exact else loc_Inexact (Z.compare (2 * r) h).

(** [M / 2^k] rounded to the nearest integer, ties to even. *)
Definition rne (M k : Z) : Z :=
  round_nearest_even (M / 2 ^ k) (loc_of (M mod 2 ^ k) (2 ^ k)).

(** A positive integer [P] rounded to 53 significant bits, and to a multiple
    of [2^emin] at least. *)
Definition grid (emin P : Z) : Z := Z.max (Zdigits2 P - 53) emin.

Definition round53 (emin P : Z) : Z := rne P (grid emin P) * 2 ^ grid emin P.

(** ** Tactics *)

(** Case analysis on the comparisons of exponents and mantissas. *)
Ltac compare_cases :=
  repeat match goal with
    | H : context [Z.compare ?a ?b] |- _ => destruct (Z.compare_spec a b); try subst
    | |- context [Z.compare ?a ?b] => destruct (Z.compare_spec a b); try subst
    | H : context [Pos.compare_cont Eq ?a ?b] |- _ =>
        rewrite (Pos.compare_cont_spec a b Eq) in H;
        destruct (Pos.compare_spec a b); cbn [Pos.switch_Eq CompOpp] in *; try subst
    | |- context [Pos.compare_cont Eq ?a ?b] =>
        rewrite (Pos.compare_cont_spec a b Eq);
        destruct (Pos.compare_spec a b); cbn [Pos.switch_Eq CompOpp] in *; try subst
    end.

(** Case analysis on the order of numbers. *)
Ltac order_cases :=
  unfold ltb, leb, gtb, SFltb, SFleb;
  repeat match goal with x : number |- _ => destruct x as [[] | [] | | [] ? ?] end;
  cbn [SFcompare isNaN]; try discriminate; try reflexivity;
  intros; compare_cases; try discriminate; try reflexivity; exfalso; lia.

(** ** Examples *)

(** The file of the three samples [0, 1, -1] at 44100 Hz: 50 bytes. *)
Example encode_three_samples :
  encode [of_Z 0; of_Z 1; of_Z (-1)] (Some (of_Z 44100))
  = Normal {| blob_bytes :=
                [82; 73; 70; 70; 42; 0; 0; 0; 87; 65; 86; 69;
                 102; 109; 116; 32; 16; 0; 0; 0; 1; 0; 1; 0;
                 68; 172; 0; 0; 17; 43; 0; 0; 2; 0; 16; 0;
                 100; 97; 116; 97; 6; 0; 0; 0;
                 0; 0; 255; 127; 0; 128];
              blob_type := "audio/wav" |}.
Proof. vm_compute. reflexivity. Qed.

(** The empty input gives the header alone, here at the default rate. *)
Example encode_empty :
  encode [] None
  = Normal {| blob_bytes :=
                [82; 73; 70; 70; 36; 0; 0; 0; 87; 65; 86; 69;
                 102; 109; 116; 32; 16; 0; 0; 0; 1; 0; 1; 0;
                 68; 172; 0; 0; 17; 43; 0; 0; 2; 0; 16; 0;
                 100; 97; 116; 97; 0; 0; 0; 0];
              blob_type := "audio/wav" |}.
Proof. vm_compute. reflexivity. Qed.

(** Samples out of range are clamped, fractions are truncated toward
    zero, a [NaN] becomes 0. *)
Example quantize_examples :
  map (fun value => ToInt16 (quantize value))
    [half; three_halves; minus_three_halves; div (of_Z (-1)) (of_Z 2);
     div (of_Z 1) (of_Z 32767); div (of_Z (-1)) (of_Z 65536); NaN;
     S754_infinity false; S754_infinity true; S754_zero true]
  = [16383; 32767; -32768; -16384; 1; 0; 0; 32767; -32768; 0].
Proof. vm_compute. reflexivity. Qed.

(** A write past the end of the buffer throws. *)
Example setInt16_out_of_range :
  setInt16 3 (of_Z 1) true [0; 0; 0; 0] = Throw RangeError.
Proof. reflexivity. Qed.

(** * Facts about numbers *)

Section Rounding.

Lemma digits2_pos_bounds (p : positive) :
  2 ^ (Zpos (digits2_pos p) - 1) <= Zpos p < 2 ^ Zpos (digits2_pos p).
Proof.
  induction p as [p IH | p IH |]; cbn [digits2_pos]; [| | cbn; lia].
  all: rewrite Pos2Z.inj_succ.
  all: replace (Z.succ (Zpos (digits2_pos p)) - 1)
         with (Z.succ (Zpos (digits2_pos p) - 1)) by lia.
  all: rewrite !Z.pow_succ_r by lia; lia.
Qed.

Lemma Zdigits2_le (z k : Z) : 0 <= z < 2 ^ k -> 0 <= k -> Zdigits2 z <= k.
Proof.
  intros [Hz Hlt] Hk. destruct z as [| p | p]; cbn [Zdigits2]; [lia | | lia].
  destruct (digits2_pos_bounds p) as [Hlo _].
  assert (2 ^ (Zpos (digits2_pos p) - 1) < 2 ^ k) as H by lia.
  apply Z.pow_lt_mono_r_iff in H; lia.
Qed.

Lemma fexp_eq (d : Z) : fexp prec emax d = Z.max (d - 53) (-1074).
Proof. reflexivity. Qed.

Lemma shr_1_m (mrs : shr_record) :
  0 <= shr_m mrs -> shr_m (shr_1 mrs) = Z.div2 (shr_m mrs).
Proof. destruct mrs as [[| [p | p |] | p] r s]; cbn; intros; (reflexivity || lia). Qed.

Lemma div2_nonneg (m : Z) : 0 <= m -> 0 <= Z.div2 m.
Proof. intros Hm. rewrite Z.div2_div. apply Z.div_pos; lia. Qed.

Lemma pow2_xO (n : positive) : 2 ^ Zpos n~0 = 2 ^ Zpos n * 2 ^ Zpos n.
Proof. rewrite Pos2Z.inj_xO, <- Z.pow_add_r by lia. f_equal; lia. Qed.

Lemma pow2_xI (n : positive) : 2 ^ Zpos n~1 = 2 * (2 ^ Zpos n * 2 ^ Zpos n).
Proof.
  rewrite Pos2Z.inj_xI, <- Z.pow_add_r, <- Z.pow_succ_r by lia. f_equal; lia.
Qed.

Lemma shr_iter_m (n : positive) :
  forall mrs, 0 <= shr_m mrs ->
    0 <= shr_m (SpecFloat.iter_pos shr_1 n mrs) /\
    shr_m (SpecFloat.iter_pos shr_1 n mrs) = shr_m mrs / 2 ^ Zpos n.
Proof.
  induction n as [n IH | n IH |]; intros mrs Hm; cbn [SpecFloat.iter_pos].
  - pose proof (div2_nonneg _ Hm) as H1. rewrite <- shr_1_m in H1 by exact Hm.
    destruct (IH _ H1) as [H2 E2]. destruct (IH _ H2) as [H3 E3].
    split; [exact H3 |].
    rewrite E3, E2, shr_1_m, Z.div2_div, !Z.div_div by lia.
    now rewrite pow2_xI.
  - destruct (IH _ Hm) as [H2 E2]. destruct (IH _ H2) as [H3 E3].
    split; [exact H3 |].
    rewrite E3, E2, !Z.div_div by lia.
    now rewrite pow2_xO.
  - rewrite shr_1_m by exact Hm. split; [now apply div2_nonneg |].
    now rewrite Z.div2_div.
Qed.

(** [shr] divides the mantissa by a power of two and raises the exponent
    by as much. *)
Lemma shr_m_spec (mrs mrs' : shr_record) (e e' n : Z) :
  0 <= shr_m mrs ->
  shr mrs e n = (mrs', e') ->
  e' = e + Z.max n 0 /\ shr_m mrs' = shr_m mrs / 2 ^ Z.max n 0.
Proof.
  intros Hm Hshr. destruct n as [| n | n]; cbn in Hshr; inversion Hshr; subst.
  - rewrite Z.max_r by lia. cbn. now rewrite Z.add_0_r, Z.div_1_r.
  - rewrite Z.max_l by lia. split; [reflexivity |].
    now apply shr_iter_m.
  - rewrite Z.max_r by lia. cbn. now rewrite Z.add_0_r, Z.div_1_r.
Qed.

Lemma shr_record_of_loc_m (m : Z) (l : location) : shr_m (shr_record_of_loc m l) = m.
Proof. destruct l as [| []]; reflexivity. Qed.

Lemma round_nearest_even_bounds (m : Z) (l : location) :
  m <= round_nearest_even m l <= m + 1.
Proof. destruct l as [| []]; cbn; try destruct (Z.even m); lia. Qed.

(** A mantissa below [K * 2^(-e)], for [K] below [2^53], is shifted to an
    exponent that is still at most [0], and stays below [K * 2^(-e')]. *)
Lemma shr_fexp_below (m e K : Z) (l : location) (mrs' : shr_record) (e' : Z) :
  0 <= m -> e <= 0 -> 0 < K < 2 ^ 53 -> m <= K * 2 ^ (- e) ->
  shr_fexp prec emax m e l = (mrs', e') ->
  e <= e' <= 0 /\ shr_m mrs' = m / 2 ^ (e' - e).
Proof.
  intros Hm He HK Hle Hshr. unfold shr_fexp in Hshr.
  apply shr_m_spec in Hshr; [| now rewrite shr_record_of_loc_m].
  rewrite shr_record_of_loc_m in Hshr. destruct Hshr as [-> ->].
  assert (Zdigits2 m <= 53 - e) as Hd.
  { apply Zdigits2_le; [| lia]. split; [lia |].
    replace (53 - e) with (53 + - e) by lia. rewrite Z.pow_add_r by lia.
    assert (0 < 2 ^ (- e)) by (apply Z.pow_pos_nonneg; lia). nia. }
  rewrite fexp_eq. split; [lia |]. f_equal. f_equal. lia.
Qed.

(** Rounding a positive mantissa whose value is below [K]: the result is
    a zero or a finite number of magnitude at most [K]. *)
Lemma binary_round_aux_below (s : bool) (M : positive) (E K : Z) :
  E <= 0 -> 0 < K < 2 ^ 53 -> Zpos M < K * 2 ^ (- E) ->
  match binary_round_aux prec emax s (Zpos M) E loc_Exact with
  | S754_zero s' => s' = s
  | S754_finite s' m' e' => s' = s /\ e' <= 0 /\ Zpos m' <= K * 2 ^ (- e')
  | _ => False
  end.
Proof.
  intros HE HK HM. unfold binary_round_aux.
  destruct (shr_fexp prec emax (Zpos M) E loc_Exact) as [mrs1 e1] eqn:H1.
  apply (shr_fexp_below _ _ K) in H1; [| lia ..].
  destruct H1 as [He1 Hm1].
  pose proof (round_nearest_even_bounds (shr_m mrs1) (loc_of_shr_record mrs1)) as HM1.
  set (M1 := round_nearest_even (shr_m mrs1) (loc_of_shr_record mrs1)) in *.
  assert (0 <= shr_m mrs1 < K * 2 ^ (- e1)) as Hlt1.
  { rewrite Hm1. split; [apply Z.div_pos; [lia | apply Z.pow_pos_nonneg; lia] |].
    apply Z.div_lt_upper_bound; [apply Z.pow_pos_nonneg; lia |].
    replace (- E) with ((e1 - E) + (- e1)) in HM by lia.
    rewrite Z.pow_add_r in HM by lia. lia. }
  destruct (shr_fexp prec emax M1 e1 loc_Exact) as [mrs2 e2] eqn:H2.
  apply (shr_fexp_below _ _ K) in H2; [| lia ..].
  destruct H2 as [He2 Hm2].
  assert (0 <= shr_m mrs2 <= K * 2 ^ (- e2)) as Hle2.
  { rewrite Hm2. split; [apply Z.div_pos; [lia | apply Z.pow_pos_nonneg; lia] |].
    apply Z.div_le_upper_bound; [apply Z.pow_pos_nonneg; lia |].
    replace (- e1) with ((e2 - e1) + (- e2)) in Hlt1 by lia.
    rewrite Z.pow_add_r in Hlt1 by lia. lia. }
  destruct (shr_m mrs2) as [| m2 | m2]; [reflexivity | | lia].
  replace (e2 <=? emax - prec) with true by (symmetry; apply Z.leb_le; unfold emax, prec; lia).
  repeat split; lia.
Qed.

(** A mantissa that is already canonical is left alone. *)
Lemma binary_round_aux_canonical (s : bool) (m : positive) (e : Z) :
  canonical_mantissa prec emax m e = true -> e <= emax - prec ->
  binary_round_aux prec emax s (Zpos m) e loc_Exact = S754_finite s m e.
Proof.
  unfold canonical_mantissa. intros Hc%Z.eqb_eq He.
  unfold binary_round_aux, shr_fexp. cbn [Zdigits2 shr_record_of_loc].
  rewrite Hc, Z.sub_diag. cbn [shr shr_m loc_of_shr_record round_nearest_even].
  cbn [Zdigits2 shr_record_of_loc].
  rewrite Hc, Z.sub_diag. cbn [shr shr_m].
  now apply Z.leb_le in He as ->.
Qed.

Lemma iter_xO_spec (p k : positive) :
  Zpos (digits2_pos (Pos.iter xO p k)) = Zpos (digits2_pos p) + Zpos k /\
  Zpos (Pos.iter xO p k) = Zpos p * 2 ^ Zpos k.
Proof.
  apply (Pos.iter_ind _ xO p
           (fun k q => Zpos (digits2_pos q) = Zpos (digits2_pos p) + Zpos k /\
                       Zpos q = Zpos p * 2 ^ Zpos k)).
  - cbn [digits2_pos]. rewrite Pos2Z.inj_succ. split; lia.
  - intros k' q [Hd Hq]. cbn [digits2_pos].
    rewrite !Pos2Z.inj_succ, Z.pow_succ_r, Pos2Z.inj_xO by lia. split; lia.
Qed.

(** Integers below [2^53] are numbers: converting one and truncating it
    gives the integer back. *)
Lemma of_Z_pos (p : positive) :
  Zpos p < 2 ^ 53 ->
  exists m e, of_Z (Zpos p) = S754_finite false m e /\ e <= 0 /\
              Zpos m = Zpos p * 2 ^ (- e) /\ valid (of_Z (Zpos p)) = true.
Proof.
  intros Hp.
  assert (Zpos (digits2_pos p) <= 53) as Hd
      by (apply (Zdigits2_le (Zpos p)); lia).
  unfold of_Z, binary_normalize, binary_round, shl_align.
  rewrite fexp_eq, Z.add_0_r, Z.max_l, Z.sub_0_r by lia.
  destruct (Zpos (digits2_pos p) - 53) as [| k | k] eqn:Hk; [| lia |].
  - exists p, 0. rewrite binary_round_aux_canonical.
    + unfold valid, valid_binary, bounded, canonical_mantissa.
      rewrite fexp_eq. repeat split; try lia.
      apply andb_true_iff; split; [apply Z.eqb_eq | apply Z.leb_le; unfold emax, prec]; lia.
    + unfold canonical_mantissa. rewrite fexp_eq. apply Z.eqb_eq. lia.
    + unfold emax, prec; lia.
  - destruct (iter_xO_spec p k) as [Hdk Hmk].
    assert (canonical_mantissa prec emax (Pos.iter xO p k) (Zneg k) = true) as Hc.
    { unfold canonical_mantissa. rewrite fexp_eq. apply Z.eqb_eq. lia. }
    exists (Pos.iter xO p k), (Zneg k). rewrite binary_round_aux_canonical.
    + unfold valid, valid_binary, bounded. rewrite Hc.
      repeat split; [lia | exact Hmk].
    + exact Hc.
    + unfold emax, prec; lia.
Qed.

Lemma trunc_of_Z (z : Z) : 0 <= z < 2 ^ 53 -> trunc (of_Z z) = Some z.
Proof.
  intros [H0 Hz]. destruct z as [| p | p]; [reflexivity | | lia].
  destruct (of_Z_pos p Hz) as (m & e & -> & He & Hm & _).
  cbn [trunc truncate cond_Zopp]. f_equal.
  rewrite Z.shiftl_div_pow2, Hm by lia.
  apply Z.div_mul. apply Z.pow_nonzero; lia.
Qed.

Lemma ToUint32_of_Z (z : Z) : 0 <= z < 2 ^ 53 -> ToUint32 (of_Z z) = z mod 2 ^ 32.
Proof.
  intros Hz. pose proof (trunc_of_Z z Hz) as Ht.
  destruct (of_Z z) as [s | s | | s m e]; cbn in Ht |- *; try discriminate.
  - now inversion Ht.
  - now inversion Ht.
Qed.

Lemma shiftl_below (m : positive) (e K : Z) :
  e <= 0 -> Zpos m <= K * 2 ^ (- e) -> 0 <= Z.shiftl (Zpos m) e <= K.
Proof.
  intros He Hm. rewrite Z.shiftl_div_pow2 by lia.
  assert (0 < 2 ^ (- e)) by (apply Z.pow_pos_nonneg; lia).
  split; [apply Z.div_pos; lia | apply Z.div_le_upper_bound; lia].
Qed.

(** A valid finite number has at most 53 significant bits, and exactly 53
    unless its exponent is the least one. *)
Lemma valid_finite (s : bool) (m : positive) (e : Z) :
  valid (S754_finite s m e) = true ->
  Zpos m < 2 ^ 53 /\ (e = -1074 \/ 2 ^ 52 <= Zpos m).
Proof.
  unfold valid, valid_binary, bounded, canonical_mantissa.
  rewrite fexp_eq. intros [Hc%Z.eqb_eq _]%andb_true_iff.
  destruct (digits2_pos_bounds m) as [Hlo Hhi].
  assert (Zpos (digits2_pos m) <= 53) as Hd by lia.
  split.
  - eapply Z.lt_le_trans; [exact Hhi |]. apply Z.pow_le_mono_r; lia.
  - destruct (Z.eq_dec e (-1074)) as [| Hne]; [now left | right].
    replace (Zpos (digits2_pos m)) with 53 in Hlo by lia. exact Hlo.
Qed.

(** *** Exact results *)

Lemma digits2_pos_shift (M m : positive) (k : Z) :
  0 <= k -> Zpos M = Zpos m * 2 ^ k ->
  Zpos (digits2_pos M) = Zpos (digits2_pos m) + k.
Proof.
  intros Hk HM.
  destruct (digits2_pos_bounds M) as [HMlo HMhi].
  destruct (digits2_pos_bounds m) as [Hmlo Hmhi].
  assert (0 < 2 ^ k) as Hpos by (apply Z.pow_pos_nonneg; lia).
  assert (2 ^ (Zpos (digits2_pos M) - 1) < 2 ^ (Zpos (digits2_pos m) + k)) as H1.
  { rewrite (Z.pow_add_r 2 (Zpos (digits2_pos m)) k) by lia. nia. }
  assert (2 ^ (Zpos (digits2_pos m) - 1 + k) < 2 ^ Zpos (digits2_pos M)) as H2.
  { rewrite (Z.pow_add_r 2 (Zpos (digits2_pos m) - 1) k) by lia. nia. }
  apply Z.pow_lt_mono_r_iff in H1; [| lia ..].
  apply Z.pow_lt_mono_r_iff in H2; lia.
Qed.

Lemma shr_1_exact (m : Z) :
  0 <= m ->
  shr_1 {| shr_m := 2 * m; shr_r := false; shr_s := false |}
  = {| shr_m := m; shr_r := false; shr_s := false |}.
Proof. destruct m as [| p | p]; [reflexivity | reflexivity | lia]. Qed.

Lemma shr_iter_exact (n : positive) :
  forall m, 0 <= m ->
    SpecFloat.iter_pos shr_1 n {| shr_m := m * 2 ^ Zpos n; shr_r := false; shr_s := false |}
    = {| shr_m := m; shr_r := false; shr_s := false |}.
Proof.
  induction n as [n IH | n IH |]; intros m Hm; cbn [SpecFloat.iter_pos].
  - rewrite pow2_xI.
    replace (m * (2 * (2 ^ Zpos n * 2 ^ Zpos n))) with (2 * (m * 2 ^ Zpos n * 2 ^ Zpos n)) by lia.
    assert (0 < 2 ^ Zpos n) by (apply Z.pow_pos_nonneg; lia).
    rewrite shr_1_exact by nia. rewrite IH by nia. now apply IH.
  - rewrite pow2_xO, Z.mul_assoc.
    assert (0 < 2 ^ Zpos n) by (apply Z.pow_pos_nonneg; lia).
    rewrite IH by nia. now apply IH.
  - change (2 ^ 1) with 2. rewrite Z.mul_comm. now apply shr_1_exact.
Qed.

Lemma shr_exact (m e k : Z) :
  0 <= m -> 0 <= k ->
  shr {| shr_m := m * 2 ^ k; shr_r := false; shr_s := false |} e k
  = ({| shr_m := m; shr_r := false; shr_s := false |}, e + k).
Proof.
  intros Hm Hk. destruct k as [| k | k]; [| | lia].
  - cbn [shr]. now rewrite Z.pow_0_r, Z.mul_1_r, Z.add_0_r.
  - cbn [shr]. now rewrite shr_iter_exact.
Qed.

(** When the bits to drop are zeros, rounding drops them and nothing
    else. *)
Lemma binary_round_aux_exact (s : bool) (M m' : positive) (E e' : Z) :
  e' = fexp prec emax (Zpos (digits2_pos M) + E) ->
  E <= e' -> e' <= emax - prec ->
  Zpos M = Zpos m' * 2 ^ (e' - E) ->
  binary_round_aux prec emax s (Zpos M) E loc_Exact = S754_finite s m' e'.
Proof.
  intros He' HE Hmax HM.
  pose proof (digits2_pos_shift M m' (e' - E) ltac:(lia) HM) as Hd.
  unfold binary_round_aux, shr_fexp. cbn [Zdigits2 shr_record_of_loc].
  rewrite <- He', HM, shr_exact by lia.
  cbn [shr_m loc_of_shr_record round_nearest_even Zdigits2 shr_record_of_loc].
  replace (Zpos (digits2_pos m') + (E + (e' - E))) with (Zpos (digits2_pos M) + E) by lia.
  rewrite <- He'. replace (e' - (E + (e' - E))) with 0 by lia.
  cbn [shr shr_m]. replace (E + (e' - E)) with e' by lia.
  now apply Z.leb_le in Hmax as ->.
Qed.

(** The number of a positive integer below [2^53]. *)
Lemma of_Z_intro (q m : positive) (e : Z) :
  Zpos q < 2 ^ 53 ->
  e = Zpos (digits2_pos q) - 53 ->
  Zpos m = Zpos q * 2 ^ (- e) ->
  of_Z (Zpos q) = S754_finite false m e.
Proof.
  intros Hq He Hm.
  assert (Zpos (digits2_pos q) <= 53) as Hd
      by (apply (Zdigits2_le (Zpos q)); lia).
  unfold of_Z, binary_normalize, binary_round, shl_align.
  rewrite fexp_eq, Z.add_0_r, Z.max_l, Z.sub_0_r by lia.
  destruct (Zpos (digits2_pos q) - 53) as [| k | k] eqn:Hk; [| lia |].
  - subst e. cbn in Hm. assert (m = q) as -> by lia.
    apply binary_round_aux_canonical; [| unfold emax, prec; lia].
    unfold canonical_mantissa. rewrite fexp_eq. apply Z.eqb_eq. lia.
  - destruct (iter_xO_spec q k) as [Hdk Hmk].
    subst e. change (- Z.neg k) with (Zpos k) in Hm.
    assert (m = Pos.iter xO q k) as -> by (apply Pos2Z.inj; congruence).
    apply binary_round_aux_canonical; [| unfold emax, prec; lia].
    unfold canonical_mantissa. rewrite fexp_eq. apply Z.eqb_eq. lia.
Qed.

Lemma of_Z_elim (q : positive) :
  Zpos q < 2 ^ 53 ->
  exists m, of_Z (Zpos q) = S754_finite false m (Zpos (digits2_pos q) - 53) /\
            Zpos m = Zpos q * 2 ^ (53 - Zpos (digits2_pos q)) /\
            Zpos (digits2_pos m) = 53.
Proof.
  intros Hq.
  assert (Zpos (digits2_pos q) <= 53) as Hd
      by (apply (Zdigits2_le (Zpos q)); lia).
  assert (0 < 2 ^ (53 - Zpos (digits2_pos q))) as Hpos by (apply Z.pow_pos_nonneg; lia).
  destruct (Zpos q * 2 ^ (53 - Zpos (digits2_pos q))) as [| m | m] eqn:Hm; [lia | | lia].
  exists m. split; [| split; [reflexivity |]].
  - apply of_Z_intro; [exact Hq | reflexivity |].
    rewrite <- Hm. f_equal. f_equal. lia.
  - rewrite (digits2_pos_shift m q (53 - Zpos (digits2_pos q))); lia.
Qed.

Lemma shl_align_fst (m : positive) (e ez : Z) :
  ez <= e -> Zpos (fst (shl_align m e ez)) = Zpos m * 2 ^ (e - ez).
Proof.
  intros Hle. unfold shl_align.
  destruct (ez - e) as [| d | d] eqn:Hd; [| lia |]; cbn [fst].
  - replace (e - ez) with 0 by lia. lia.
  - destruct (iter_xO_spec m d) as [_ ->]. f_equal. f_equal. lia.
Qed.

(** Normalizing a mantissa that denotes an integer below [2^53] gives the
    number of that integer. *)
Lemma binary_round_exact (S q : positive) (e : Z) :
  Zpos q < 2 ^ 53 -> e <= 0 -> Zpos S = Zpos q * 2 ^ (- e) ->
  binary_round prec emax false S e = of_Z (Zpos q).
Proof.
  intros Hq He HS.
  destruct (of_Z_elim q Hq) as (m & -> & Hm & Hdm).
  assert (Zpos (digits2_pos q) <= 53) as Hd
      by (apply (Zdigits2_le (Zpos q)); lia).
  pose proof (digits2_pos_shift S q (- e) ltac:(lia) HS) as HdS.
  unfold binary_round, shl_align.
  rewrite HdS, fexp_eq.
  replace (Z.max (Zpos (digits2_pos q) + - e + e - 53) (-1074))
    with (Zpos (digits2_pos q) - 53) by lia.
  destruct (Zpos (digits2_pos q) - 53 - e) as [| d | d] eqn:Hshift.
  - apply binary_round_aux_exact; [rewrite HdS, fexp_eq; lia | lia | unfold emax, prec; lia |].
    rewrite HS, Hm. replace (Zpos (digits2_pos q) - 53 - e) with 0 by lia.
    rewrite Z.pow_0_r, Z.mul_1_r. f_equal. f_equal. lia.
  - apply binary_round_aux_exact; [rewrite HdS, fexp_eq; lia | lia | unfold emax, prec; lia |].
    rewrite HS, Hm, <- Z.mul_assoc, <- Z.pow_add_r by lia. f_equal. f_equal. lia.
  - destruct (iter_xO_spec S d) as [_ HSd].
    assert (Pos.iter xO S d = m) as ->.
    { apply Pos2Z.inj. rewrite HSd, HS, Hm, <- Z.mul_assoc, <- Z.pow_add_r by lia.
      f_equal. f_equal. lia. }
    apply binary_round_aux_canonical; [| unfold emax, prec; lia].
    unfold canonical_mantissa. rewrite Hdm, fexp_eq. apply Z.eqb_eq. lia.
Qed.

(** Addition of integers, and doubling, are exact below [2^53]. *)
Lemma add_of_Z (a b : Z) :
  0 <= a -> 0 <= b -> a + b < 2 ^ 53 -> add (of_Z a) (of_Z b) = of_Z (a + b).
Proof.
  intros Ha Hb Hab.
  destruct a as [| qa | qa]; [| | lia]; destruct b as [| qb | qb]; try lia.
  - reflexivity.
  - rewrite Z.add_0_l. change (of_Z 0) with (S754_zero false).
    destruct (of_Z_elim qb ltac:(lia)) as (m & -> & _). reflexivity.
  - rewrite Z.add_0_r. change (of_Z 0) with (S754_zero false).
    destruct (of_Z_elim qa ltac:(lia)) as (m & -> & _). reflexivity.
  - destruct (of_Z_elim qa ltac:(lia)) as (ma & -> & Hma & _).
    destruct (of_Z_elim qb ltac:(lia)) as (mb & -> & Hmb & _).
    assert (Zpos (digits2_pos qa) <= 53) as Hda
        by (apply (Zdigits2_le (Zpos qa)); lia).
    assert (Zpos (digits2_pos qb) <= 53) as Hdb
        by (apply (Zdigits2_le (Zpos qb)); lia).
    unfold add, SFadd. cbn [cond_Zopp].
    set (ea := Zpos (digits2_pos qa) - 53) in *.
    set (eb := Zpos (digits2_pos qb) - 53) in *.
    set (ez := Z.min ea eb).
    rewrite <- Pos2Z.inj_add. cbn [binary_normalize].
    change (Zpos qa + Zpos qb) with (Zpos (qa + qb)).
    apply binary_round_exact; [exact Hab | lia |].
    rewrite Pos2Z.inj_add, !shl_align_fst, Hma, Hmb by lia.
    rewrite <- !Z.mul_assoc, <- !Z.pow_add_r by lia.
    replace (53 - Zpos (digits2_pos qa) + (ea - ez)) with (- ez) by lia.
    replace (53 - Zpos (digits2_pos qb) + (eb - ez)) with (- ez) by lia.
    rewrite Pos2Z.inj_add. lia.
Qed.

Lemma mul_of_Z_2 (n : Z) :
  0 <= n -> n * 2 < 2 ^ 53 -> mul (of_Z n) (of_Z 2) = of_Z (n * 2).
Proof.
  intros Hn Hlt. destruct n as [| q | q]; [reflexivity | | lia].
  destruct (of_Z_elim q ltac:(lia)) as (m & -> & Hm & Hdm).
  assert (Zpos (digits2_pos q) <= 52) as Hd.
  { apply (Zdigits2_le (Zpos q)); [| lia].
    change (2 ^ 53) with (2 ^ 52 * 2) in Hlt. lia. }
  change (of_Z 2) with (S754_finite false 4503599627370496 (-51)).
  unfold mul, SFmul. cbn [xorb].
  assert (Zpos (digits2_pos (m * 4503599627370496)) = 105) as HdM.
  { rewrite (digits2_pos_shift _ m 52); [lia | lia |]. now rewrite Pos2Z.inj_mul. }
  rewrite (binary_round_aux_exact _ _ m _ (Zpos (digits2_pos q) - 52)).
  - symmetry. replace (Zpos q * 2) with (Zpos q~0) in * by lia.
    apply of_Z_intro; [exact Hlt | |].
    + cbn [digits2_pos]. rewrite Pos2Z.inj_succ. lia.
    + rewrite Hm, Pos2Z.inj_xO.
      replace (53 - Zpos (digits2_pos q)) with (1 + - (Zpos (digits2_pos q) - 52)) by lia.
      rewrite Z.pow_add_r by lia. change (2 ^ 1) with 2. lia.
  - rewrite HdM, fexp_eq. lia.
  - lia.
  - unfold emax, prec. lia.
  - rewrite Pos2Z.inj_mul. f_equal.
    replace (Zpos (digits2_pos q) - 52 - (Zpos (digits2_pos q) - 53 + -51)) with 52 by lia.
    reflexivity.
Qed.

Lemma mul_of_Z_1 (n : Z) :
  0 <= n < 2 ^ 53 -> mul (of_Z n) (of_Z 1) = of_Z n.
Proof.
  intros [Hn Hlt]. destruct n as [| q | q]; [reflexivity | | lia].
  destruct (of_Z_elim q Hlt) as (m & -> & Hm & Hdm).
  assert (Zpos (digits2_pos q) <= 53) as Hd
      by (apply (Zdigits2_le (Zpos q)); lia).
  change (of_Z 1) with (S754_finite false 4503599627370496 (-52)).
  unfold mul, SFmul. cbn [xorb].
  assert (Zpos (digits2_pos (m * 4503599627370496)) = 105) as HdM.
  { rewrite (digits2_pos_shift _ m 52); [lia | lia |]. now rewrite Pos2Z.inj_mul. }
  apply binary_round_aux_exact.
  - rewrite HdM, fexp_eq. lia.
  - lia.
  - unfold emax, prec. lia.
  - rewrite Pos2Z.inj_mul. f_equal.
    replace (Zpos (digits2_pos q) - 53 - (Zpos (digits2_pos q) - 53 + -52)) with 52 by lia.
    reflexivity.
Qed.

(** Dividing an integer by 8 lowers the exponent by 3. *)
Lemma div_of_Z_8 (q : positive) :
  Zpos q < 2 ^ 53 ->
  exists m, div (of_Z (Zpos q)) (of_Z 8)
            = S754_finite false m (Zpos (digits2_pos q) - 56) /\
            Zpos m = Zpos q * 2 ^ (53 - Zpos (digits2_pos q)).
Proof.
  intros Hq. destruct (of_Z_elim q Hq) as (m & -> & Hm & Hdm).
  assert (Zpos (digits2_pos q) <= 53) as Hd
      by (apply (Zdigits2_le (Zpos q)); lia).
  exists m. split; [| exact Hm].
  change (of_Z 8) with (S754_finite false 4503599627370496 (-49)).
  unfold div, SFdiv, SFdiv_core_binary. cbn [xorb Zdigits2].
  rewrite Hdm. change (Zpos (digits2_pos 4503599627370496)) with 53.
  set (e1 := Zpos (digits2_pos q) - 53) in *.
  rewrite fexp_eq.
  replace (Z.min (Z.max (53 + e1 - (53 + -49) - 53) (-1074)) (e1 - -49)) with (e1 - 4) by lia.
  replace (e1 - -49 - (e1 - 4)) with 53 by lia.
  rewrite Z.shiftl_mul_pow2 by lia.
  pose proof (Z_div_mod (Zpos m * 2 ^ 53) (Zpos 4503599627370496) eq_refl) as Hdiv.
  destruct (Z.div_eucl (Zpos m * 2 ^ 53) (Zpos 4503599627370496)) as [quo r].
  change (2 ^ 53) with 9007199254740992 in Hdiv.
  assert (r = 0) as -> by lia.
  assert (quo = Zpos m~0) as -> by lia.
  change (new_location (Zpos 4503599627370496) 0) with loc_Exact.
  apply binary_round_aux_exact.
  - cbn [digits2_pos]. rewrite Pos2Z.inj_succ, Hdm, fexp_eq. lia.
  - lia.
  - unfold emax, prec. lia.
  - rewrite Pos2Z.inj_xO.
    match goal with |- _ = _ * 2 ^ ?k => replace k with 1 by lia end.
    change (2 ^ 1) with 2. lia.
Qed.

(** The number written in the ByteRate field: a quarter of the sample
    rate, rounded down. *)
Lemma ByteRate_value (rate : Z) :
  0 < rate -> rate * 2 < 2 ^ 53 ->
  ToUint32 (div (mul (mul (of_Z rate) (of_Z 2)) (of_Z 1)) (of_Z 8))
  = (rate / 4) mod 2 ^ 32.
Proof.
  intros Hpos Hlt.
  rewrite mul_of_Z_2, mul_of_Z_1 by lia.
  destruct rate as [| q | q]; try lia.
  replace (Zpos q * 2) with (Zpos q~0) in * by lia.
  destruct (div_of_Z_8 (q~0) Hlt) as (m & -> & Hm).
  assert (Zpos (digits2_pos q~0) <= 53) as Hd
      by (apply (Zdigits2_le (Zpos q~0)); lia).
  cbn [ToUint32 truncate cond_Zopp]. f_equal.
  rewrite Z.shiftl_div_pow2, Hm by lia.
  replace (- (Zpos (digits2_pos q~0) - 56)) with (3 + (53 - Zpos (digits2_pos q~0))) by lia.
  rewrite Z.pow_add_r by lia. change (2 ^ 3) with 8.
  assert (0 < 2 ^ (53 - Zpos (digits2_pos q~0))) by (apply Z.pow_pos_nonneg; lia).
  rewrite Z.div_mul_cancel_r, Pos2Z.inj_xO by lia.
  change 8 with (2 * 4). now rewrite Z.div_mul_cancel_l by lia.
Qed.

(** The arithmetic of [encode] on the length of its input: below [2^53]
    it is the arithmetic of integers. *)
Lemma length_arithmetic (n : Z) :
  0 <= n -> 44 + n * 2 < 2 ^ 53 ->
  mul (of_Z n) (of_Z 2) = of_Z (n * 2) /\
  add (of_Z 36) (mul (of_Z n) (of_Z 2)) = of_Z (36 + n * 2) /\
  add (of_Z 44) (mul (of_Z n) (of_Z 2)) = of_Z (44 + n * 2).
Proof.
  intros Hn Hlt. rewrite mul_of_Z_2 by lia.
  repeat split; apply add_of_Z; lia.
Qed.

End Rounding.

(** * Quantization of one sample *)

Section Quantize.

Lemma of_Z_0x7FFF : of_Z 0x7FFF = S754_finite false 9006924376834048 (-38).
Proof. reflexivity. Qed.

Lemma of_Z_0x8000 : of_Z 0x8000 = S754_finite false 4503599627370496 (-37).
Proof. reflexivity. Qed.

Lemma of_Z_1 : of_Z 1 = S754_finite false 4503599627370496 (-52).
Proof. reflexivity. Qed.

Lemma of_Z_m1 : of_Z (-1) = S754_finite true 4503599627370496 (-52).
Proof. reflexivity. Qed.

Lemma pow2_opp_ge (e : Z) : e <= -53 -> 2 ^ 53 <= 2 ^ (- e).
Proof. intros He. apply Z.pow_le_mono_r; lia. Qed.

(** A number in [(0, 1)] scaled by [0x7FFF] stays in [[0, 32767]]. *)
Lemma mul_0x7FFF_below (m : positive) (e : Z) :
  e <= -53 -> Zpos m < 2 ^ 53 ->
  match mul (S754_finite false m e) (of_Z 0x7FFF) with
  | S754_zero _ => True
  | S754_finite s m' e' => 0 <= truncate s m' e' <= 32767
  | _ => False
  end.
Proof.
  intros He Hm. rewrite of_Z_0x7FFF. unfold mul, SFmul. cbn [xorb].
  assert (Zpos (m * 9006924376834048) < 32767 * 2 ^ (- (e + -38))) as Hlt.
  { rewrite Pos2Z.inj_mul. replace (- (e + -38)) with (38 + - e) by lia.
    rewrite Z.pow_add_r by lia. pose proof (pow2_opp_ge e He).
    change (2 ^ 38) with 274877906944. change (2 ^ 53) with 9007199254740992 in *. lia. }
  pose proof (binary_round_aux_below false (m * 9006924376834048) (e + -38) 32767 ltac:(lia)
                ltac:(split; reflexivity) Hlt) as H.
  destruct (binary_round_aux _ _ _ _ _ _) as [s' | s' | | s' m' e']; [exact I | exact H .. |].
  destruct H as (-> & He' & Hm').
  unfold truncate, cond_Zopp. now apply shiftl_below.
Qed.

(** A number in [(-1, 0)] scaled by [0x8000] stays in [[-32768, 0]]. *)
Lemma mul_0x8000_below (m : positive) (e : Z) :
  e <= -53 -> Zpos m < 2 ^ 53 ->
  match mul (S754_finite true m e) (of_Z 0x8000) with
  | S754_zero _ => True
  | S754_finite s m' e' => -32768 <= truncate s m' e' <= 0
  | _ => False
  end.
Proof.
  intros He Hm. rewrite of_Z_0x8000. unfold mul, SFmul. cbn [xorb].
  assert (Zpos (m * 4503599627370496) < 32768 * 2 ^ (- (e + -37))) as Hlt.
  { rewrite Pos2Z.inj_mul. replace (- (e + -37)) with (37 + - e) by lia.
    rewrite Z.pow_add_r by lia. pose proof (pow2_opp_ge e He).
    change (2 ^ 37) with 137438953472. change (2 ^ 53) with 9007199254740992 in *. lia. }
  pose proof (binary_round_aux_below true (m * 4503599627370496) (e + -37) 32768 ltac:(lia)
                ltac:(split; reflexivity) Hlt) as H.
  destruct (binary_round_aux _ _ _ _ _ _) as [s' | s' | | s' m' e']; [exact I | exact H .. |].
  destruct H as (-> & He' & Hm').
  unfold truncate, cond_Zopp.
  pose proof (shiftl_below m' e' 32768 He' Hm'). lia.
Qed.

Lemma ltb_finite_0 (s : bool) (m : positive) (e : Z) :
  ltb (S754_finite s m e) (of_Z 0) = s.
Proof. now destruct s. Qed.

(** A valid positive number that is not above [1] is [1] or has an
    exponent below [-52]. *)
Lemma not_gtb_1 (m : positive) (e : Z) :
  valid (S754_finite false m e) = true ->
  gtb (S754_finite false m e) (of_Z 1) = false ->
  S754_finite false m e = of_Z 1 \/ e <= -53.
Proof.
  intros [_ Hv]%valid_finite. rewrite of_Z_1.
  unfold gtb, SFltb, SFcompare.
  destruct (Z.compare_spec (-52) e) as [<- | Hc | Hc]; [| discriminate | right; lia].
  rewrite Pos.compare_cont_spec.
  destruct (Pos.compare_spec 4503599627370496 m) as [<- | Hc | Hc];
    cbn [Pos.switch_Eq]; [now left | discriminate |].
  intros _. change (2 ^ 52) with 4503599627370496 in Hv. exfalso.
  apply Pos2Z.pos_lt_pos in Hc. destruct Hv as [Hv | Hv]; [discriminate | lia].
Qed.

Lemma not_ltb_m1 (m : positive) (e : Z) :
  valid (S754_finite true m e) = true ->
  ltb (S754_finite true m e) (of_Z (-1)) = false ->
  S754_finite true m e = of_Z (-1) \/ e <= -53.
Proof.
  intros [_ Hv]%valid_finite. rewrite of_Z_m1.
  unfold ltb, SFltb, SFcompare.
  destruct (Z.compare_spec e (-52)) as [-> | Hc | Hc]; [| right; lia | discriminate].
  rewrite Pos.compare_cont_spec.
  destruct (Pos.compare_spec m 4503599627370496) as [-> | Hc | Hc];
    cbn [Pos.switch_Eq CompOpp]; [now left | | discriminate].
  intros _. change (2 ^ 52) with 4503599627370496 in Hv. exfalso.
  apply Pos2Z.pos_lt_pos in Hc. destruct Hv as [Hv | Hv]; [discriminate | lia].
Qed.

(** The quantized value of a valid sample is [NaN] only for a [NaN]
    sample; otherwise it is a zero or a finite number whose integer part
    is a signed 16-bit integer. *)
Lemma quantize_range (value : number) :
  valid value = true ->
  match quantize value with
  | S754_nan => value = NaN
  | S754_infinity _ => False
  | S754_zero _ => True
  | S754_finite s m e => -32768 <= truncate s m e <= 32767
  end.
Proof.
  intros Hv. destruct value as [s | s | | s m e].
  - destruct s; exact I.
  - destruct s; vm_compute; split; discriminate.
  - reflexivity.
  - unfold quantize, clamp. cbn [max min].
    destruct (gtb (S754_finite s m e) (of_Z 1)) eqn:Hgt;
      [vm_compute; split; discriminate |].
    destruct (ltb (S754_finite s m e) (of_Z (-1))) eqn:Hlt;
      [vm_compute; split; discriminate |].
    rewrite ltb_finite_0. destruct (valid_finite _ _ _ Hv) as [Hm _].
    destruct s.
    + destruct (not_ltb_m1 m e Hv Hlt) as [-> | He];
        [vm_compute; split; discriminate |].
      pose proof (mul_0x8000_below m e He Hm) as H.
      destruct (mul _ _) as [s' | s' | | s' m' e']; [exact I | destruct H .. | lia].
    + destruct (not_gtb_1 m e Hv Hgt) as [-> | He];
        [vm_compute; split; discriminate |].
      pose proof (mul_0x7FFF_below m e He Hm) as H.
      destruct (mul _ _) as [s' | s' | | s' m' e']; [exact I | destruct H .. | lia].
Qed.

Lemma ToInt16_range (s : bool) (m : positive) (e : Z) :
  -32768 <= truncate s m e <= 32767 ->
  ToInt16 (S754_finite s m e) = truncate s m e.
Proof.
  intros H. unfold ToInt16. cbv zeta.
  change (2 ^ 15) with 32768. change (2 ^ 16) with 65536.
  destruct (Z_lt_le_dec (truncate s m e) 0) as [Hneg | Hpos].
  - replace (truncate s m e mod 65536) with (truncate s m e + 65536)
      by (apply Z.mod_unique with (-1); lia).
    destruct (Z.leb_spec 32768 (truncate s m e + 65536)); lia.
  - rewrite Z.mod_small by lia.
    destruct (Z.leb_spec 32768 (truncate s m e)); lia.
Qed.

(** The 16-bit write of a quantized sample stores the integer part of
    the quantized value, unchanged by the reduction modulo [2^16]. *)
Lemma ToInt16_quantize (value : number) :
  valid value = true -> value <> NaN ->
  trunc (quantize value) = Some (ToInt16 (quantize value)) /\
  -32768 <= ToInt16 (quantize value) <= 32767.
Proof.
  intros Hv Hnan. pose proof (quantize_range value Hv) as H.
  destruct (quantize value) as [s | s | | s m e]; [| contradiction ..|].
  - cbn. split; [reflexivity | lia].
  - cbn [trunc]. rewrite ToInt16_range by exact H. split; [reflexivity | exact H].
Qed.

End Quantize.

(** * Bytes written through the view *)

Section Bytes.

Lemma length_le_bytes (n : nat) (z : Z) : length (le_bytes n z) = n.
Proof. revert z. induction n as [| n IH]; intros z; cbn; [| rewrite IH]; reflexivity. Qed.

Lemma length_raw_bytes (n : nat) (z : Z) (littleEndian : bool) :
  length (raw_bytes n z littleEndian) = n.
Proof.
  unfold raw_bytes. destruct littleEndian; rewrite ?length_rev; apply length_le_bytes.
Qed.

Lemma le_value_le_bytes (n : nat) (z : Z) :
  le_value (le_bytes n z) = z mod 256 ^ Z.of_nat n.
Proof.
  revert z. induction n as [| n IH]; intros z.
  - cbn. now rewrite Z.mod_1_r.
  - cbn [le_bytes le_value]. rewrite IH, Nat2Z.inj_succ, Z.pow_succ_r by lia.
    rewrite Z.rem_mul_r by (try apply Z.pow_nonzero; lia). reflexivity.
Qed.

(** Reading back what was written gives the value modulo [256^n]. *)
Lemma raw_value_raw_bytes (n : nat) (z : Z) (littleEndian : bool) :
  raw_value (raw_bytes n z littleEndian) littleEndian = z mod 256 ^ Z.of_nat n.
Proof.
  unfold raw_value, raw_bytes. destruct littleEndian;
    rewrite ?rev_involutive; apply le_value_le_bytes.
Qed.

Lemma le_bytes_range (n : nat) (z : Z) : Forall (fun b => 0 <= b < 256) (le_bytes n z).
Proof.
  revert z. induction n as [| n IH]; intros z; cbn; constructor; [| apply IH].
  apply Z.mod_pos_bound; lia.
Qed.

Lemma raw_bytes_range (n : nat) (z : Z) (littleEndian : bool) :
  Forall (fun b => 0 <= b < 256) (raw_bytes n z littleEndian).
Proof.
  unfold raw_bytes. destruct littleEndian; [| apply Forall_rev]; apply le_bytes_range.
Qed.

(** A store replaces exactly the bytes it covers. *)
Lemma store_app (pre old post bs : ArrayBuffer) :
  length old = length bs ->
  store (length pre) bs (pre ++ old ++ post) = Normal (tt, pre ++ bs ++ post).
Proof.
  intros Hlen. unfold store.
  replace (length pre + length bs <=? length (pre ++ old ++ post))%nat with true
    by (symmetry; apply Nat.leb_le; rewrite !length_app; lia).
  rewrite take_app_length, <- Hlen, drop_app_add', drop_app_length by reflexivity.
  reflexivity.
Qed.

Lemma store_out_of_range (byteOffset : nat) (bs buf : ArrayBuffer) :
  (length buf < byteOffset + length bs)%nat ->
  store byteOffset bs buf = Throw RangeError.
Proof.
  intros H. unfold store.
  now replace (byteOffset + length bs <=? length buf)%nat with false
    by (symmetry; apply Nat.leb_gt; lia).
Qed.

Lemma load_app (pre bs post : ArrayBuffer) :
  load (length pre) (length bs) (pre ++ bs ++ post) = Some bs.
Proof.
  unfold load.
  replace (length pre + length bs <=? length (pre ++ bs ++ post))%nat with true
    by (symmetry; apply Nat.leb_le; rewrite !length_app; lia).
  now rewrite drop_app_length, take_app_length.
Qed.

Lemma ToUint32_range (x : number) : 0 <= ToUint32 x < 2 ^ 32.
Proof.
  destruct x; cbn [ToUint32]; try (split; [lia | reflexivity]).
  apply Z.mod_pos_bound. reflexivity.
Qed.

Lemma ToUint16_range (x : number) : 0 <= ToUint16 x < 2 ^ 16.
Proof.
  destruct x; cbn [ToUint16]; try (split; [lia | reflexivity]).
  apply Z.mod_pos_bound. reflexivity.
Qed.

Lemma ToInt16_bounds (x : number) : - 2 ^ 15 <= ToInt16 x < 2 ^ 15.
Proof.
  destruct x as [s | s | | s m e]; cbn [ToInt16]; try (split; [discriminate | reflexivity]).
  cbv zeta. pose proof (Z.mod_pos_bound (truncate s m e) (2 ^ 16) eq_refl) as H.
  change (2 ^ 15) with 32768 in *. change (2 ^ 16) with 65536 in *.
  destruct (Z.leb_spec 32768 (truncate s m e mod 65536)); lia.
Qed.

End Bytes.

Section Layout.

Lemma length_header (n : number) (sampleRate : number) : length (header n sampleRate) = 44%nat.
Proof. reflexivity. Qed.

Lemma length_sample_bytes (value : number) : length (sample_bytes value) = 2%nat.
Proof. reflexivity. Qed.

Lemma length_pcm_bytes (input : list number) :
  length (pcm_bytes input) = (length input * 2)%nat.
Proof.
  induction input as [| v input IH]; [reflexivity |].
  unfold pcm_bytes in *. cbn [flat_map]. rewrite length_app, IH. reflexivity.
Qed.

(** The loop of [floatTo16BitPCM], started at [index] on a buffer whose
    remaining part has room for the remaining samples. *)
Lemma forEach_pcm (offset : nat) (input : list number) :
  forall (index : nat) (pre rest : ArrayBuffer),
    length pre = (offset + index * 2)%nat ->
    length rest = (length input * 2)%nat ->
    forEach (fun value index => setInt16 (offset + index * 2) (quantize value) true)
      input index (pre ++ rest)
    = Normal (tt, pre ++ pcm_bytes input).
Proof.
  induction input as [| v input IH]; intros index pre rest Hpre Hrest.
  - destruct rest; [| discriminate]. reflexivity.
  - destruct rest as [| r0 [| r1 rest]]; try discriminate.
    cbn [forEach]. unfold bind, setInt16. rewrite <- Hpre.
    rewrite (store_app pre [r0; r1] rest) by reflexivity.
    change (pre ++ raw_bytes 2 (ToInt16 (quantize v)) true ++ rest)
      with (pre ++ sample_bytes v ++ rest).
    rewrite app_assoc, IH.
    + unfold pcm_bytes. cbn [flat_map]. now rewrite app_assoc.
    + rewrite length_app, Hpre, length_sample_bytes. lia.
    + cbn [length] in Hrest. lia.
Qed.

(** The same loop on a buffer that goes on after the samples. *)
Lemma forEach_pcm_frame (offset : nat) (input : list number) :
  forall (index : nat) (pre rest post : ArrayBuffer),
    length pre = (offset + index * 2)%nat ->
    length rest = (length input * 2)%nat ->
    forEach (fun value index => setInt16 (offset + index * 2) (quantize value) true)
      input index (pre ++ rest ++ post)
    = Normal (tt, pre ++ pcm_bytes input ++ post).
Proof.
  induction input as [| v input IH]; intros index pre rest post Hpre Hrest.
  - destruct rest; [| discriminate]. reflexivity.
  - destruct rest as [| r0 [| r1 rest]]; try discriminate.
    cbn [forEach]. unfold bind, setInt16. rewrite <- Hpre.
    change (pre ++ (r0 :: r1 :: rest) ++ post) with (pre ++ [r0; r1] ++ (rest ++ post)).
    rewrite (store_app pre [r0; r1] (rest ++ post)) by reflexivity.
    change (pre ++ raw_bytes 2 (ToInt16 (quantize v)) true ++ rest ++ post)
      with (pre ++ sample_bytes v ++ rest ++ post).
    rewrite app_assoc, IH.
    + unfold pcm_bytes. cbn [flat_map]. now rewrite <- !app_assoc.
    + rewrite length_app, Hpre, length_sample_bytes. lia.
    + cbn [length] in Hrest. lia.
Qed.

(** On a view with room for the samples, [floatTo16BitPCM] replaces the
    bytes from [offset] on, whatever they were. *)
Lemma floatTo16BitPCM_in_place (offset : nat) (input : list number) (output : ArrayBuffer) :
  (offset + length input * 2 <= length output)%nat ->
  floatTo16BitPCM offset input output
  = Normal (tt, take offset output ++ pcm_bytes input
                ++ drop (offset + length input * 2) output).
Proof.
  intros Hfit. unfold floatTo16BitPCM.
  rewrite <- (take_drop offset output) at 1.
  rewrite <- (take_drop (length input * 2) (drop offset output)) at 1.
  rewrite drop_drop. apply forEach_pcm_frame.
  - rewrite length_take. lia.
  - rewrite length_take, length_drop. lia.
Qed.

Lemma floatTo16BitPCM_spec (offset : nat) (input : list number) (pre rest : ArrayBuffer) :
  length pre = offset ->
  length rest = (length input * 2)%nat ->
  floatTo16BitPCM offset input (pre ++ rest) = Normal (tt, pre ++ pcm_bytes input).
Proof.
  intros Hpre Hrest. unfold floatTo16BitPCM. apply forEach_pcm; lia.
Qed.

(** The header writes, on a buffer of at least 44 bytes. *)
Lemma write_wav_spec (data : list number) (sampleRate : number) (buffer : ArrayBuffer) :
  length buffer = (44 + length data * 2)%nat ->
  write_wav data sampleRate buffer
  = Normal (tt, header (of_Z (Z.of_nat (length data))) sampleRate ++ pcm_bytes data).
Proof.
  intros Hlen.
  assert (exists old rest, buffer = old ++ rest /\ length old = 44%nat /\
                           length rest = (length data * 2)%nat) as (old & rest & -> & Hold & Hrest).
  { exists (take 44 buffer), (drop 44 buffer).
    rewrite take_drop, length_take, length_drop. repeat split; lia. }
  do 44 (destruct old as [| ? old]; [discriminate Hold |]).
  destruct old; [| discriminate Hold]. clear Hold Hlen.
  unfold write_wav.
  cbn -[Z.modulo Z.div ToUint32 ToUint16 of_Z add mul div floatTo16BitPCM Z.of_nat].
  change (floatTo16BitPCM 44 data (header (of_Z (Z.of_nat (length data))) sampleRate ++ rest)
          = Normal (tt, header (of_Z (Z.of_nat (length data))) sampleRate ++ pcm_bytes data)).
  now apply floatTo16BitPCM_spec.
Qed.

(** No write of [encode] is out of range, and the blob holds the header
    followed by the samples. *)
Lemma encode_in_spec (buffer : ArrayBuffer) (data : list number) (sampleRate : number) :
  length buffer = (44 + length data * 2)%nat ->
  encode_in buffer data sampleRate
  = Normal {| blob_bytes := header (of_Z (Z.of_nat (length data))) sampleRate ++ pcm_bytes data;
              blob_type := "audio/wav" |}.
Proof. intros Hlen. unfold encode_in. now rewrite write_wav_spec. Qed.

Lemma encode_spec (data : list number) (sampleRate : option number) :
  encode data sampleRate
  = Normal {| blob_bytes := header (of_Z (Z.of_nat (length data))) (default (of_Z 44100) sampleRate)
                            ++ pcm_bytes data;
              blob_type := "audio/wav" |}.
Proof. unfold encode. apply encode_in_spec. apply length_replicate. Qed.

(** Every byte of the file is in [[0, 256)]. *)
Lemma encode_bytes_range (data : list number) (sampleRate : option number) (blob : Blob) :
  encode data sampleRate = Normal blob ->
  Forall (fun b => 0 <= b < 256) (blob_bytes blob).
Proof.
  rewrite encode_spec. intros Heq.
  assert (blob = {| blob_bytes := header (of_Z (Z.of_nat (length data)))
                                    (default (of_Z 44100) sampleRate) ++ pcm_bytes data;
                    blob_type := "audio/wav" |}) as -> by congruence.
  cbn [blob_bytes]. apply Forall_app. split.
  - unfold header.
    repeat (apply Forall_app; split; [apply raw_bytes_range |]). apply raw_bytes_range.
  - unfold pcm_bytes. apply Forall_flat_map, Forall_forall.
    intros v _. apply raw_bytes_range.
Qed.

End Layout.

(** * Reading the file back *)

Section Fields.

Lemma load_raw_bytes (pre post : ArrayBuffer) (k : nat) (z : Z) (littleEndian : bool) :
  load (length pre) k (pre ++ raw_bytes k z littleEndian ++ post)
  = Some (raw_bytes k z littleEndian).
Proof.
  pose proof (load_app pre (raw_bytes k z littleEndian) post) as H.
  now rewrite length_raw_bytes in H.
Qed.

Lemma getUint32_stored (pre post : ArrayBuffer) (x : number) (littleEndian : bool) :
  getUint32 (pre ++ raw_bytes 4 (ToUint32 x) littleEndian ++ post) (length pre) littleEndian
  = Some (ToUint32 x).
Proof.
  unfold getUint32.
  rewrite load_raw_bytes. cbn [mbind option_bind]. rewrite raw_value_raw_bytes.
  f_equal. apply Z.mod_small, ToUint32_range.
Qed.

Lemma getUint16_stored (pre post : ArrayBuffer) (x : number) (littleEndian : bool) :
  getUint16 (pre ++ raw_bytes 2 (ToUint16 x) littleEndian ++ post) (length pre) littleEndian
  = Some (ToUint16 x).
Proof.
  unfold getUint16.
  rewrite load_raw_bytes. cbn [mbind option_bind]. rewrite raw_value_raw_bytes.
  f_equal. apply Z.mod_small, ToUint16_range.
Qed.

Lemma getInt16_stored (pre post : ArrayBuffer) (x : number) (littleEndian : bool) :
  getInt16 (pre ++ raw_bytes 2 (ToInt16 x) littleEndian ++ post) (length pre) littleEndian
  = Some (ToInt16 x).
Proof.
  unfold getInt16.
  rewrite load_raw_bytes. cbn [mbind option_bind]. rewrite raw_value_raw_bytes.
  cbv zeta. f_equal. pose proof (ToInt16_bounds x) as H.
  change (256 ^ Z.of_nat 2) with 65536.
  change (2 ^ 15) with 32768 in *. change (2 ^ 16) with 65536.
  destruct (Z_lt_le_dec (ToInt16 x) 0) as [Hneg | Hpos].
  - replace (ToInt16 x mod 65536) with (ToInt16 x + 65536)
      by (apply Z.mod_unique with (-1); lia).
    destruct (Z.leb_spec 32768 (ToInt16 x + 65536)); lia.
  - rewrite Z.mod_small by lia.
    destruct (Z.leb_spec 32768 (ToInt16 x)); lia.
Qed.

Variables (n : number) (sampleRate : number) (rest : ArrayBuffer).

Lemma ChunkID_field :
  getUint32 (header n sampleRate ++ rest) 0 false
  = Some (ToUint32 (of_Z 0x52494646)).
Proof. exact (getUint32_stored [] _ _ false). Qed.

Lemma ChunkSize_field :
  getUint32 (header n sampleRate ++ rest) 4 true
  = Some (ToUint32 (add (of_Z 36) (mul n (of_Z 2)))).
Proof. exact (getUint32_stored (take 4 (header n sampleRate)) _ _ true). Qed.

Lemma Format_field :
  getUint32 (header n sampleRate ++ rest) 8 false
  = Some (ToUint32 (of_Z 0x57415645)).
Proof. exact (getUint32_stored (take 8 (header n sampleRate)) _ _ false). Qed.

Lemma Subchunk1ID_field :
  getUint32 (header n sampleRate ++ rest) 12 false
  = Some (ToUint32 (of_Z 0x666d7420)).
Proof. exact (getUint32_stored (take 12 (header n sampleRate)) _ _ false). Qed.

Lemma Subchunk1Size_field :
  getUint32 (header n sampleRate ++ rest) 16 true
  = Some (ToUint32 (of_Z 0x00000010)).
Proof. exact (getUint32_stored (take 16 (header n sampleRate)) _ _ true). Qed.

Lemma AudioFormat_field :
  getUint16 (header n sampleRate ++ rest) 20 true
  = Some (ToUint16 (of_Z 0x00000001)).
Proof. exact (getUint16_stored (take 20 (header n sampleRate)) _ _ true). Qed.

Lemma NumChannels_field :
  getUint16 (header n sampleRate ++ rest) 22 true
  = Some (ToUint16 (of_Z 0x00000001)).
Proof. exact (getUint16_stored (take 22 (header n sampleRate)) _ _ true). Qed.

Lemma SampleRate_field :
  getUint32 (header n sampleRate ++ rest) 24 true
  = Some (ToUint32 sampleRate).
Proof. exact (getUint32_stored (take 24 (header n sampleRate)) _ _ true). Qed.

Lemma ByteRate_field :
  getUint32 (header n sampleRate ++ rest) 28 true
  = Some (ToUint32 (div (mul (mul sampleRate (of_Z 2)) (of_Z 1)) (of_Z 8))).
Proof. exact (getUint32_stored (take 28 (header n sampleRate)) _ _ true). Qed.

Lemma BlockAlign_field :
  getUint16 (header n sampleRate ++ rest) 32 true
  = Some (ToUint16 (of_Z 0x00000002)).
Proof. exact (getUint16_stored (take 32 (header n sampleRate)) _ _ true). Qed.

Lemma BitsPerSample_field :
  getUint16 (header n sampleRate ++ rest) 34 true
  = Some (ToUint16 (of_Z 0x00000010)).
Proof. exact (getUint16_stored (take 34 (header n sampleRate)) _ _ true). Qed.

Lemma Subchunk2ID_field :
  getUint32 (header n sampleRate ++ rest) 36 false
  = Some (ToUint32 (of_Z 0x64617461)).
Proof. exact (getUint32_stored (take 36 (header n sampleRate)) _ _ false). Qed.

Lemma Subchunk2Size_field :
  getUint32 (header n sampleRate ++ rest) 40 true
  = Some (ToUint32 (mul n (of_Z 2))).
Proof. exact (getUint32_stored (take 40 (header n sampleRate)) _ _ true). Qed.

(** The four chunk identifiers, as bytes of the file. *)
Lemma chunk_identifiers :
  load 0 4 (header n sampleRate ++ rest) = Some [82; 73; 70; 70] /\
  load 8 4 (header n sampleRate ++ rest) = Some [87; 65; 86; 69] /\
  load 12 4 (header n sampleRate ++ rest) = Some [102; 109; 116; 32] /\
  load 36 4 (header n sampleRate ++ rest) = Some [100; 97; 116; 97].
Proof. repeat split. Qed.

End Fields.

Section Samples.

Lemma pcm_bytes_app (l1 l2 : list number) :
  pcm_bytes (l1 ++ l2) = pcm_bytes l1 ++ pcm_bytes l2.
Proof. apply flat_map_app. Qed.

(** The bytes of the [i]-th sample sit at offset [44 + 2 * i]. *)
Lemma sample_at (n : number) (sampleRate : number) (data : list number) (i : nat) (value : number) :
  data !! i = Some value ->
  exists pre post,
    header n sampleRate ++ pcm_bytes data = pre ++ sample_bytes value ++ post /\
    length pre = (44 + 2 * i)%nat.
Proof.
  intros Hi.
  exists (header n sampleRate ++ pcm_bytes (take i data)), (pcm_bytes (drop (S i) data)).
  split.
  - rewrite <- (take_drop_middle data i value Hi) at 1.
    rewrite pcm_bytes_app. unfold pcm_bytes at 2. cbn [flat_map].
    now rewrite <- !app_assoc.
  - rewrite length_app, length_header, length_pcm_bytes, length_take.
    apply lookup_lt_Some in Hi. lia.
Qed.

(** The same in a buffer that holds the samples between other bytes. *)
Lemma sample_within (pre post : ArrayBuffer) (data : list number) (i : nat) (value : number) :
  data !! i = Some value ->
  exists pre' post',
    pre ++ pcm_bytes data ++ post = pre' ++ sample_bytes value ++ post' /\
    length pre' = (length pre + 2 * i)%nat.
Proof.
  intros Hi.
  exists (pre ++ pcm_bytes (take i data)), (pcm_bytes (drop (S i) data) ++ post).
  split.
  - rewrite <- (take_drop_middle data i value Hi) at 1.
    rewrite pcm_bytes_app. unfold pcm_bytes at 2. cbn [flat_map].
    now rewrite <- !app_assoc.
  - rewrite length_app, length_pcm_bytes, length_take.
    apply lookup_lt_Some in Hi. lia.
Qed.

Lemma getInt16_sample (n : number) (sampleRate : number) (data : list number) (i : nat)
    (value : number) :
  data !! i = Some value ->
  getInt16 (header n sampleRate ++ pcm_bytes data) (44 + 2 * i) true
  = Some (ToInt16 (quantize value)).
Proof.
  intros (pre & post & -> & <-)%(sample_at n sampleRate).
  apply getInt16_stored.
Qed.

Lemma load_sample (n : number) (sampleRate : number) (data : list number) (i : nat)
    (value : number) :
  data !! i = Some value ->
  load (44 + 2 * i) 2 (header n sampleRate ++ pcm_bytes data) = Some (sample_bytes value).
Proof.
  intros (pre & post & -> & <-)%(sample_at n sampleRate).
  apply load_raw_bytes.
Qed.

End Samples.

(** * Order of numbers *)

Section Order.

(** Below the lower bound of a non-empty range is not above its upper
    bound, so the two tests of [clamp] exclude each other. *)
Lemma ltb_leb_not_gtb (x lo hi : number) :
  ltb x lo = true -> leb lo hi = true -> gtb x hi = false.
Proof.
  unfold ltb, leb, gtb, SFltb, SFleb.
  destruct x as [sx | sx | | sx mx ex], lo as [sl | sl | | sl ml el],
        hi as [sh | sh | | sh mh eh];
    cbn [SFcompare]; try discriminate; try reflexivity;
    repeat match goal with s : bool |- _ => destruct s end;
    try discriminate; try reflexivity;
    intros H1 H2; compare_cases; try discriminate; try reflexivity; exfalso; lia.
Qed.

End Order.

(** * The bytes of a window *)

Section Windows.

Lemma load_lookup (byteOffset k : nat) (buf bs : ArrayBuffer) (j : nat) :
  load byteOffset k buf = Some bs -> (j < k)%nat ->
  buf !! (byteOffset + j)%nat = bs !! j.
Proof.
  unfold load. destruct (byteOffset + k <=? length buf)%nat; [| discriminate].
  intros [= <-] Hj. now rewrite lookup_take_lt, lookup_drop by exact Hj.
Qed.

End Windows.

(** * Properties of the encoder *)

(** C1.  The ByteRate field does not hold [sampleRate * 2]: line 62 divides
    [sampleRate * 2 * 1] by [8], so that for every integer sample rate in
    [(0, 2^32)], given or left to its default of 44100, and for any samples,
    the four bytes at offset 28 (little-endian) read a quarter of the sample
    rate, rounded down.  The formula of the header table of the source,
    (SampleRate * NumChannels * BitsPerSample) / 8 with one channel and 16
    bits per sample, gives [sampleRate * 2]. *)
Theorem ByteRate_quarter_of_rate (data : list number) (sampleRate : option number)
    (rate : Z) :
  0 < rate < 2 ^ 32 ->
  default (of_Z 44100) sampleRate = of_Z rate ->
  exists blob,
    encode data sampleRate = Normal blob /\
    getUint32 (blob_bytes blob) 28 true = Some (rate / 4) /\
    getUint32 (blob_bytes blob) 28 true <> Some (rate * 2).
Proof.
  intros Hrate Hsr. eexists. split; [apply encode_spec |]. cbn [blob_bytes].
  change (2 ^ 32) with 4294967296 in Hrate.
  assert (0 <= rate / 4 <= rate) as Hq.
  { split; [apply Z.div_pos; lia | apply Z.div_le_upper_bound; lia]. }
  rewrite ByteRate_field, Hsr, ByteRate_value
    by (change (2 ^ 53) with 9007199254740992; lia).
  rewrite Z.mod_small by (change (2 ^ 32) with 4294967296; lia).
  split; [reflexivity |]. intros [= Heq]. lia.
Qed.

Lemma ByteRate_quarter_of_rate_witness :
  0 < 44100 < 2 ^ 32 /\
  default (of_Z 44100) None = of_Z 44100 /\
  exists blob,
    encode [] None = Normal blob /\
    getUint32 (blob_bytes blob) 28 true = Some (44100 / 4) /\
    getUint32 (blob_bytes blob) 28 true <> Some (44100 * 2).
Proof.
  split; [split; reflexivity |]. split; [reflexivity |].
  apply (ByteRate_quarter_of_rate [] None 44100); [split; reflexivity | reflexivity].
Defined.

(** C2.  For a sample that is a valid double, the number handed to the
    16-bit write is the clamped sample times 32768 when the clamped sample
    is negative and times 32767 otherwise; the signed 16-bit integer read
    back at the sample's offset is the integer part (rounding toward zero)
    of that number, with no wrap-around, a [NaN] sample having no integer
    part.  The samples 1, -1 and 0 encode to 32767, -32768 and 0. *)
Theorem quantization_truncates (data : list number) (sampleRate : option number)
    (i : nat) (value : number) :
  valid value = true ->
  data !! i = Some value ->
  quantize value
  = (let clampedInput := clamp value unit_range in
     if ltb clampedInput (of_Z 0)
     then mul clampedInput (of_Z 32768)
     else mul clampedInput (of_Z 32767)) /\
  (exists blob z,
      encode data sampleRate = Normal blob /\
      getInt16 (blob_bytes blob) (44 + 2 * i) true = Some z /\
      -32768 <= z <= 32767 /\
      trunc (quantize value) = (if isNaN value then None else Some z)) /\
  (exists blob,
      encode [of_Z 1; of_Z (-1); of_Z 0] sampleRate = Normal blob /\
      getInt16 (blob_bytes blob) 44 true = Some 32767 /\
      getInt16 (blob_bytes blob) 46 true = Some (-32768) /\
      getInt16 (blob_bytes blob) 48 true = Some 0).
Proof.
  intros Hv Hi. split; [reflexivity |]. split.
  - eexists. exists (ToInt16 (quantize value)).
    split; [apply encode_spec |]. cbn [blob_bytes].
    split; [now apply getInt16_sample |].
    destruct (isNaN value) eqn:Hnan.
    + destruct value; try discriminate Hnan.
      split; [vm_compute; split; discriminate | reflexivity].
    + assert (value <> NaN) as Hne by (intros ->; discriminate Hnan).
      destruct (ToInt16_quantize value Hv Hne) as [Ht Hr]. now split.
  - eexists. split; [apply encode_spec |]. cbn [blob_bytes].
    rewrite (getInt16_sample _ _ _ 0 (of_Z 1)), (getInt16_sample _ _ _ 1 (of_Z (-1))),
      (getInt16_sample _ _ _ 2 (of_Z 0)) by reflexivity.
    repeat split.
Qed.

Lemma quantization_truncates_witness :
  valid half = true /\
  [of_Z 0; half] !! 1%nat = Some half /\
  exists blob z,
    encode [of_Z 0; half] None = Normal blob /\
    getInt16 (blob_bytes blob) (44 + 2 * 1) true = Some z /\
    -32768 <= z <= 32767 /\
    trunc (quantize half) = (if isNaN half then None else Some z).
Proof.
  split; [reflexivity |]. split; [reflexivity |].
  apply (quantization_truncates [of_Z 0; half] None 1 half); reflexivity.
Defined.

(** C3, as amended.  For every input of length N, [encode] returns
    normally; the ChunkSize field (offset 4, little-endian) is [36 + N * 2]
    whenever [36 + N * 2 < 2^32], and the Subchunk2Size field (offset 40,
    little-endian) is [N * 2] whenever [N * 2 < 2^32], each field under its
    own bound; in particular the empty input gives 36 and 0. *)
Theorem chunk_sizes (data : list number) (sampleRate : option number) :
  (exists blob,
      encode data sampleRate = Normal blob /\
      (36 + Z.of_nat (length data) * 2 < 2 ^ 32 ->
       getUint32 (blob_bytes blob) 4 true = Some (36 + Z.of_nat (length data) * 2)) /\
      (Z.of_nat (length data) * 2 < 2 ^ 32 ->
       getUint32 (blob_bytes blob) 40 true = Some (Z.of_nat (length data) * 2))) /\
  (exists blob,
      encode [] sampleRate = Normal blob /\
      getUint32 (blob_bytes blob) 4 true = Some 36 /\
      getUint32 (blob_bytes blob) 40 true = Some 0).
Proof.
  assert (2 ^ 53 = 9007199254740992) as H53 by reflexivity.
  assert (2 ^ 32 = 4294967296) as H32 by reflexivity.
  split.
  - eexists. split; [apply encode_spec |]. cbn [blob_bytes].
    rewrite ChunkSize_field, Subchunk2Size_field. split; intros Hlt.
    + destruct (length_arithmetic (Z.of_nat (length data))) as (_ & Hadd & _); [lia .. |].
      rewrite Hadd, ToUint32_of_Z, Z.mod_small by lia. reflexivity.
    + destruct (length_arithmetic (Z.of_nat (length data))) as (Hmul & _); [lia .. |].
      rewrite Hmul, ToUint32_of_Z, Z.mod_small by lia. reflexivity.
  - eexists. split; [apply encode_spec |]. cbn [blob_bytes].
    rewrite ChunkSize_field, Subchunk2Size_field. now split.
Qed.

Lemma chunk_sizes_witness :
  36 + Z.of_nat (length [of_Z 0; of_Z 1; of_Z (-1)]) * 2 < 2 ^ 32 /\
  Z.of_nat (length [of_Z 0; of_Z 1; of_Z (-1)]) * 2 < 2 ^ 32 /\
  exists blob,
    encode [of_Z 0; of_Z 1; of_Z (-1)] (Some (of_Z 44100)) = Normal blob /\
    getUint32 (blob_bytes blob) 4 true
    = Some (36 + Z.of_nat (length [of_Z 0; of_Z 1; of_Z (-1)]) * 2) /\
    getUint32 (blob_bytes blob) 40 true
    = Some (Z.of_nat (length [of_Z 0; of_Z 1; of_Z (-1)]) * 2).
Proof.
  split; [reflexivity |]. split; [reflexivity |].
  destruct (chunk_sizes [of_Z 0; of_Z 1; of_Z (-1)] (Some (of_Z 44100)))
    as [(blob & Hblob & H4 & H40) _].
  exists blob. split; [exact Hblob |].
  split; [apply H4 | apply H40]; reflexivity.
Defined.

(** C3 as stated fails on each of the two fields, at its own length.  For
    an input of 2147483630 samples [36 + N * 2] is [2^32]: the 32-bit
    ChunkSize field reads 0, while Subchunk2Size still reads [N * 2].  For
    an input of 2147483648 samples [N * 2] is [2^32]: the 32-bit
    Subchunk2Size field reads 0. *)
Lemma chunk_size_wraps :
  (exists blob,
      encode long_input None = Normal blob /\
      getUint32 (blob_bytes blob) 4 true = Some 0 /\
      getUint32 (blob_bytes blob) 4 true <> Some (36 + Z.of_nat (length long_input) * 2) /\
      getUint32 (blob_bytes blob) 40 true = Some (Z.of_nat (length long_input) * 2)) /\
  (exists blob,
      encode longer_input None = Normal blob /\
      getUint32 (blob_bytes blob) 40 true = Some 0 /\
      getUint32 (blob_bytes blob) 40 true <> Some (Z.of_nat (length longer_input) * 2)).
Proof.
  split.
  - eexists. split; [apply encode_spec |]. cbn [blob_bytes].
    rewrite ChunkSize_field, Subchunk2Size_field. unfold long_input.
    rewrite length_replicate, Z2Nat.id by discriminate.
    change (36 + 2147483630 * 2) with 4294967296.
    change (2147483630 * 2) with 4294967260.
    change (ToUint32 (add (of_Z 36) (mul (of_Z 2147483630) (of_Z 2)))) with 0.
    change (ToUint32 (mul (of_Z 2147483630) (of_Z 2))) with 4294967260.
    split; [reflexivity | split; [discriminate | reflexivity]].
  - eexists. split; [apply encode_spec |]. cbn [blob_bytes].
    rewrite Subchunk2Size_field. unfold longer_input.
    rewrite length_replicate, Z2Nat.id by discriminate.
    change (2147483648 * 2) with 4294967296.
    change (ToUint32 (mul (of_Z 2147483648) (of_Z 2))) with 0.
    split; [reflexivity | discriminate].
Qed.

(** C4.  For every input and every sample rate, given or omitted, [encode]
    returns normally, with a buffer of exactly [44 + N * 2] bytes. *)
Theorem encode_length (data : list number) (sampleRate : option number) :
  exists blob,
    encode data sampleRate = Normal blob /\
    length (blob_bytes blob) = (44 + length data * 2)%nat.
Proof.
  eexists. split; [apply encode_spec |]. cbn [blob_bytes].
  now rewrite length_app, length_header, length_pcm_bytes.
Qed.

(** C5.  The quantized value of the [i]-th sample is stored as a signed
    16-bit little-endian integer (low byte first) in the two bytes at
    offset [44 + 2 * i]; the samples fill the buffer after the header, in
    input order. *)
Theorem samples_in_order (data : list number) (sampleRate : option number)
    (i : nat) (value : number) :
  data !! i = Some value ->
  exists blob,
    encode data sampleRate = Normal blob /\
    getInt16 (blob_bytes blob) (44 + 2 * i) true = Some (ToInt16 (quantize value)) /\
    blob_bytes blob !! (44 + 2 * i)%nat = Some (ToInt16 (quantize value) mod 256) /\
    blob_bytes blob !! (44 + 2 * i + 1)%nat = Some (ToInt16 (quantize value) / 256 mod 256) /\
    drop 44 (blob_bytes blob) = flat_map sample_bytes data /\
    length (drop 44 (blob_bytes blob)) = (length data * 2)%nat.
Proof.
  intros Hi. eexists. split; [apply encode_spec |]. cbn [blob_bytes].
  pose proof (load_sample (of_Z (Z.of_nat (length data))) (default (of_Z 44100) sampleRate)
                data i value Hi) as Hload.
  split; [now apply getInt16_sample |].
  split; [| split; [| split]].
  - rewrite <- (Nat.add_0_r (44 + 2 * i)).
    now rewrite (load_lookup _ _ _ _ 0 Hload) by lia.
  - now rewrite (load_lookup _ _ _ _ 1 Hload) by lia.
  - set (h := header _ _). now rewrite <- (length_header _ _ : length h = 44%nat), drop_app_length.
  - now rewrite length_drop, length_app, length_header, length_pcm_bytes, Nat.add_comm,
      Nat.add_sub.
Qed.

Lemma samples_in_order_witness :
  [of_Z 0; of_Z 1; of_Z (-1)] !! 2%nat = Some (of_Z (-1)) /\
  exists blob,
    encode [of_Z 0; of_Z 1; of_Z (-1)] None = Normal blob /\
    getInt16 (blob_bytes blob) (44 + 2 * 2) true = Some (ToInt16 (quantize (of_Z (-1)))) /\
    blob_bytes blob !! (44 + 2 * 2)%nat = Some (ToInt16 (quantize (of_Z (-1))) mod 256) /\
    blob_bytes blob !! (44 + 2 * 2 + 1)%nat
    = Some (ToInt16 (quantize (of_Z (-1))) / 256 mod 256) /\
    drop 44 (blob_bytes blob) = flat_map sample_bytes [of_Z 0; of_Z 1; of_Z (-1)] /\
    length (drop 44 (blob_bytes blob)) = (length [of_Z 0; of_Z 1; of_Z (-1)] * 2)%nat.
Proof.
  split; [reflexivity |].
  apply (samples_in_order [of_Z 0; of_Z 1; of_Z (-1)] None 2 (of_Z (-1))). reflexivity.
Defined.

(** C6.  For a range with [min <= max], [clamp] returns [max] when the
    input is above [max], [min] when it is below [min], and the input
    otherwise (which includes a [NaN] input); [clamp(0.5)] is [0.5],
    [clamp(1.5)] is [1] and [clamp(-1.5)] is [-1] on the range [-1, 1]. *)
Theorem clamp_contract (x lo hi : number) :
  leb lo hi = true ->
  (gtb x hi = true -> clamp x {| max := hi; min := lo |} = hi) /\
  (ltb x lo = true -> clamp x {| max := hi; min := lo |} = lo) /\
  (gtb x hi = false -> ltb x lo = false -> clamp x {| max := hi; min := lo |} = x) /\
  clamp half {| max := of_Z 1; min := of_Z (-1) |} = half /\
  clamp three_halves {| max := of_Z 1; min := of_Z (-1) |} = of_Z 1 /\
  clamp minus_three_halves {| max := of_Z 1; min := of_Z (-1) |} = of_Z (-1).
Proof.
  intros Hle. unfold clamp. cbn [max min]. repeat split.
  - now intros ->.
  - intros Hlt. now rewrite (ltb_leb_not_gtb x lo hi Hlt Hle), Hlt.
  - now intros -> ->.
Qed.

Lemma clamp_contract_witness :
  leb (of_Z (-1)) (of_Z 1) = true /\
  (gtb (of_Z 7) (of_Z 1) = true ->
   clamp (of_Z 7) {| max := of_Z 1; min := of_Z (-1) |} = of_Z 1) /\
  (ltb (of_Z 7) (of_Z (-1)) = true ->
   clamp (of_Z 7) {| max := of_Z 1; min := of_Z (-1) |} = of_Z (-1)) /\
  (gtb (of_Z 7) (of_Z 1) = false -> ltb (of_Z 7) (of_Z (-1)) = false ->
   clamp (of_Z 7) {| max := of_Z 1; min := of_Z (-1) |} = of_Z 7) /\
  clamp half {| max := of_Z 1; min := of_Z (-1) |} = half /\
  clamp three_halves {| max := of_Z 1; min := of_Z (-1) |} = of_Z 1 /\
  clamp minus_three_halves {| max := of_Z 1; min := of_Z (-1) |} = of_Z (-1).
Proof.
  split; [reflexivity |].
  apply (clamp_contract (of_Z 7) (of_Z (-1)) (of_Z 1)). reflexivity.
Defined.

(** C7, as amended.  For every call of [encode], whatever the samples and
    the sample rate, the header reads: "RIFF" at offset 0, "WAVE" at 8,
    "fmt " at 12 and "data" at 36 (big-endian); Subchunk1Size 16 at offset
    16, AudioFormat 1 at 20, NumChannels 1 at 22, BlockAlign 2 at 32,
    BitsPerSample 16 at 34 (little-endian).  The SampleRate field at offset
    24 (little-endian) reads the sample rate whenever that is an integer in
    [[0, 2^32)], and 44100 when the argument is omitted. *)
Theorem header_fields (data : list number) (sampleRate : option number) :
  (exists blob,
    encode data sampleRate = Normal blob /\
    load 0 4 (blob_bytes blob) = Some (ascii_bytes "RIFF") /\
    load 8 4 (blob_bytes blob) = Some (ascii_bytes "WAVE") /\
    load 12 4 (blob_bytes blob) = Some (ascii_bytes "fmt ") /\
    load 36 4 (blob_bytes blob) = Some (ascii_bytes "data") /\
    getUint32 (blob_bytes blob) 0 false = Some 0x52494646 /\
    getUint32 (blob_bytes blob) 8 false = Some 0x57415645 /\
    getUint32 (blob_bytes blob) 12 false = Some 0x666d7420 /\
    getUint32 (blob_bytes blob) 36 false = Some 0x64617461 /\
    getUint32 (blob_bytes blob) 16 true = Some 16 /\
    getUint16 (blob_bytes blob) 20 true = Some 1 /\
    getUint16 (blob_bytes blob) 22 true = Some 1 /\
    getUint16 (blob_bytes blob) 32 true = Some 2 /\
    getUint16 (blob_bytes blob) 34 true = Some 16 /\
    (forall rate : Z,
        0 <= rate < 2 ^ 32 ->
        default (of_Z 44100) sampleRate = of_Z rate ->
        getUint32 (blob_bytes blob) 24 true = Some rate)) /\
  (exists blob,
    encode data None = Normal blob /\
    getUint32 (blob_bytes blob) 24 true = Some 44100).
Proof.
  split; [| eexists; split; [apply encode_spec | reflexivity]].
  eexists. split; [apply encode_spec |]. cbn [blob_bytes].
  destruct (chunk_identifiers (of_Z (Z.of_nat (length data))) (default (of_Z 44100) sampleRate)
              (pcm_bytes data)) as (H0 & H8 & H12 & H36).
  rewrite H0, H8, H12, H36.
  rewrite ChunkID_field, Format_field, Subchunk1ID_field, Subchunk2ID_field,
    Subchunk1Size_field, AudioFormat_field, NumChannels_field, BlockAlign_field,
    BitsPerSample_field, SampleRate_field.
  do 13 (split; [reflexivity |]).
  intros rate Hrate ->. change (2 ^ 32) with 4294967296 in Hrate.
  rewrite (ToUint32_of_Z rate), (Z.mod_small rate)
    by (change (2 ^ 32) with 4294967296; change (2 ^ 53) with 9007199254740992; lia).
  reflexivity.
Qed.

Lemma header_fields_witness :
  0 <= 8000 < 2 ^ 32 /\
  default (of_Z 44100) (Some (of_Z 8000)) = of_Z 8000 /\
  exists blob,
    encode [of_Z 0; of_Z 1; of_Z (-1)] (Some (of_Z 8000)) = Normal blob /\
    load 0 4 (blob_bytes blob) = Some (ascii_bytes "RIFF") /\
    load 8 4 (blob_bytes blob) = Some (ascii_bytes "WAVE") /\
    load 12 4 (blob_bytes blob) = Some (ascii_bytes "fmt ") /\
    load 36 4 (blob_bytes blob) = Some (ascii_bytes "data") /\
    getUint32 (blob_bytes blob) 0 false = Some 0x52494646 /\
    getUint32 (blob_bytes blob) 8 false = Some 0x57415645 /\
    getUint32 (blob_bytes blob) 12 false = Some 0x666d7420 /\
    getUint32 (blob_bytes blob) 36 false = Some 0x64617461 /\
    getUint32 (blob_bytes blob) 16 true = Some 16 /\
    getUint16 (blob_bytes blob) 20 true = Some 1 /\
    getUint16 (blob_bytes blob) 22 true = Some 1 /\
    getUint16 (blob_bytes blob) 32 true = Some 2 /\
    getUint16 (blob_bytes blob) 34 true = Some 16 /\
    getUint32 (blob_bytes blob) 24 true = Some 8000.
Proof.
  split; [split; [discriminate | reflexivity] |]. split; [reflexivity |].
  destruct (header_fields [of_Z 0; of_Z 1; of_Z (-1)] (Some (of_Z 8000)))
    as [(blob & Hblob & H0 & H8 & H12 & H36 & G0 & G8 & G12 & G36 & G16 & G20 & G22 & G32
         & G34 & Hrate) _].
  exists blob. repeat (split; [assumption |]).
  apply (Hrate 8000); [split; [discriminate | reflexivity] | reflexivity].
Defined.

(** C7 as stated fails for the sample rate [2^32]: the 32-bit SampleRate
    field reads 0. *)
Lemma sample_rate_wraps :
  exists blob,
    encode [] (Some (of_Z 4294967296)) = Normal blob /\
    getUint32 (blob_bytes blob) 24 true = Some 0 /\
    getUint32 (blob_bytes blob) 24 true <> Some 4294967296.
Proof.
  eexists. split; [apply encode_spec |]. cbn [blob_bytes default from_option id].
  rewrite SampleRate_field. change (ToUint32 (of_Z 4294967296)) with 0.
  split; [reflexivity | discriminate].
Qed.

(** C8.  [encode] is deterministic: two calls with the same samples and the
    same sample rate, each on the buffer allocated for it (whatever bytes
    the two buffers hold when the writes start), end in the same
    completion, with byte-identical blobs; it is the completion of
    [encode]. *)
Theorem encode_deterministic (data : list number) (sampleRate : option number)
    (buffer1 buffer2 : ArrayBuffer) :
  length buffer1 = (44 + length data * 2)%nat ->
  length buffer2 = (44 + length data * 2)%nat ->
  encode_in buffer1 data (default (of_Z 44100) sampleRate)
  = encode_in buffer2 data (default (of_Z 44100) sampleRate) /\
  encode_in buffer1 data (default (of_Z 44100) sampleRate) = encode data sampleRate.
Proof.
  intros H1 H2. now rewrite !encode_in_spec, encode_spec by assumption.
Qed.

Lemma encode_deterministic_witness :
  length (replicate 48 0) = (44 + length [half; NaN] * 2)%nat /\
  length (replicate 48 255) = (44 + length [half; NaN] * 2)%nat /\
  encode_in (replicate 48 0) [half; NaN] (default (of_Z 44100) (Some (of_Z 8000)))
  = encode_in (replicate 48 255) [half; NaN] (default (of_Z 44100) (Some (of_Z 8000))) /\
  encode_in (replicate 48 0) [half; NaN] (default (of_Z 44100) (Some (of_Z 8000)))
  = encode [half; NaN] (Some (of_Z 8000)).
Proof.
  split; [reflexivity |]. split; [reflexivity |].
  apply (encode_deterministic [half; NaN] (Some (of_Z 8000))); reflexivity.
Defined.

(** C9.  A [NaN] sample passes through [clamp] unchanged, both comparisons
    being false, and is handed to the 16-bit write as [NaN]; the write
    turns it into 0.  So [floatTo16BitPCM], on a view with room for the
    samples and whatever bytes the view held before, returns normally and
    leaves the two bytes 0 at the offset of the [NaN] sample, which read
    back as the integer 0; and so does [encode], from whatever bytes its
    buffer starts with. *)
Theorem NaN_sample_encodes_zero (data : list number) (sampleRate : option number) (i : nat)
    (offset : nat) (output buffer : ArrayBuffer) :
  data !! i = Some NaN ->
  (offset + length data * 2 <= length output)%nat ->
  length buffer = (44 + length data * 2)%nat ->
  clamp NaN {| max := of_Z 1; min := of_Z (-1) |} = NaN /\
  gtb NaN (of_Z 1) = false /\
  ltb NaN (of_Z (-1)) = false /\
  quantize NaN = NaN /\
  ToInt16 NaN = 0 /\
  (exists output',
      floatTo16BitPCM offset data output = Normal (tt, output') /\
      getInt16 output' (offset + 2 * i) true = Some 0 /\
      output' !! (offset + 2 * i)%nat = Some 0 /\
      output' !! (offset + 2 * i + 1)%nat = Some 0) /\
  (exists blob,
      encode_in buffer data (default (of_Z 44100) sampleRate) = Normal blob /\
      encode data sampleRate = Normal blob /\
      getInt16 (blob_bytes blob) (44 + 2 * i) true = Some 0 /\
      blob_bytes blob !! (44 + 2 * i)%nat = Some 0 /\
      blob_bytes blob !! (44 + 2 * i + 1)%nat = Some 0).
Proof.
  intros Hi Hfit Hlen. do 5 (split; [reflexivity |]). split.
  - eexists. split; [now apply floatTo16BitPCM_in_place |].
    destruct (sample_within (take offset output)
                (drop (offset + length data * 2) output) data i NaN Hi)
      as (pre & post & -> & Hpre).
    rewrite length_take, Nat.min_l in Hpre by lia. rewrite <- Hpre.
    pose proof (load_raw_bytes pre post 2 (ToInt16 (quantize NaN)) true) as Hload.
    change (load (length pre) 2 (pre ++ sample_bytes NaN ++ post) = Some [0; 0]) in Hload.
    split; [exact (getInt16_stored pre post (quantize NaN) true) |]. split.
    + rewrite <- (Nat.add_0_r (length pre)).
      now rewrite (load_lookup _ _ _ _ 0 Hload) by lia.
    + now rewrite (load_lookup _ _ _ _ 1 Hload) by lia.
  - eexists. split; [now apply encode_in_spec |]. split; [apply encode_spec |].
    cbn [blob_bytes].
    pose proof (load_sample (of_Z (Z.of_nat (length data))) (default (of_Z 44100) sampleRate)
                  data i NaN Hi) as Hload.
    change (sample_bytes NaN) with [0; 0] in Hload.
    split; [now rewrite (getInt16_sample _ _ _ _ _ Hi) |]. split.
    + rewrite <- (Nat.add_0_r (44 + 2 * i)).
      now rewrite (load_lookup _ _ _ _ 0 Hload) by lia.
    + now rewrite (load_lookup _ _ _ _ 1 Hload) by lia.
Qed.

Lemma NaN_sample_encodes_zero_witness :
  [of_Z 1; NaN; half] !! 1%nat = Some NaN /\
  (2 + length [of_Z 1; NaN; half] * 2 <= length (replicate 9 255))%nat /\
  length (replicate 50 255) = (44 + length [of_Z 1; NaN; half] * 2)%nat /\
  (exists output',
      floatTo16BitPCM 2 [of_Z 1; NaN; half] (replicate 9 255) = Normal (tt, output') /\
      getInt16 output' (2 + 2 * 1) true = Some 0 /\
      output' !! (2 + 2 * 1)%nat = Some 0 /\
      output' !! (2 + 2 * 1 + 1)%nat = Some 0) /\
  (exists blob,
      encode_in (replicate 50 255) [of_Z 1; NaN; half] (default (of_Z 44100) None)
      = Normal blob /\
      encode [of_Z 1; NaN; half] None = Normal blob /\
      getInt16 (blob_bytes blob) (44 + 2 * 1) true = Some 0 /\
      blob_bytes blob !! (44 + 2 * 1)%nat = Some 0 /\
      blob_bytes blob !! (44 + 2 * 1 + 1)%nat = Some 0).
Proof.
  split; [reflexivity |]. split; [cbn; lia |]. split; [reflexivity |].
  apply (NaN_sample_encodes_zero [of_Z 1; NaN; half] None 1 2 (replicate 9 255)
           (replicate 50 255)); [reflexivity | cbn; lia | reflexivity].
Defined.

(** C10.  For two inputs of equal length and one sample rate, the first 44
    bytes of the two files are the same, whatever the samples; and at every
    index where the two inputs hold the same sample, the two bytes at
    offsets [44 + 2 * i] and [44 + 2 * i + 1] are the same, whatever the
    other samples. *)
Theorem header_payload_independent (data1 data2 : list number) (sampleRate : option number) :
  length data1 = length data2 ->
  exists blob1 blob2,
    encode data1 sampleRate = Normal blob1 /\
    encode data2 sampleRate = Normal blob2 /\
    take 44 (blob_bytes blob1) = take 44 (blob_bytes blob2) /\
    forall i : nat,
      data1 !! i = data2 !! i ->
      blob_bytes blob1 !! (44 + 2 * i)%nat = blob_bytes blob2 !! (44 + 2 * i)%nat /\
      blob_bytes blob1 !! (44 + 2 * i + 1)%nat = blob_bytes blob2 !! (44 + 2 * i + 1)%nat.
Proof.
  intros Hlen. do 2 eexists. split; [apply encode_spec |]. split; [apply encode_spec |].
  cbn [blob_bytes]. rewrite Hlen. split.
  - set (h := header _ _).
    now rewrite !(take_app_length' h) by reflexivity.
  - intros i Hi. destruct (data1 !! i) as [v |] eqn:H1.
    + symmetry in Hi.
      pose proof (load_sample (of_Z (Z.of_nat (length data2))) (default (of_Z 44100) sampleRate)
                    data1 i v H1) as L1.
      pose proof (load_sample (of_Z (Z.of_nat (length data2))) (default (of_Z 44100) sampleRate)
                    data2 i v Hi) as L2.
      split.
      * rewrite <- (Nat.add_0_r (44 + 2 * i)).
        now rewrite (load_lookup _ _ _ _ 0 L1), (load_lookup _ _ _ _ 0 L2) by lia.
      * now rewrite (load_lookup _ _ _ _ 1 L1), (load_lookup _ _ _ _ 1 L2) by lia.
    + symmetry in Hi. apply lookup_ge_None in H1, Hi.
      split; (etrans; [| symmetry]); apply lookup_ge_None;
        rewrite length_app, length_header, length_pcm_bytes; lia.
Qed.

Lemma header_payload_independent_witness :
  length [of_Z 1; half; NaN] = length [of_Z 0; half; three_halves] /\
  exists blob1 blob2,
    encode [of_Z 1; half; NaN] None = Normal blob1 /\
    encode [of_Z 0; half; three_halves] None = Normal blob2 /\
    take 44 (blob_bytes blob1) = take 44 (blob_bytes blob2) /\
    forall i : nat,
      [of_Z 1; half; NaN] !! i = [of_Z 0; half; three_halves] !! i ->
      blob_bytes blob1 !! (44 + 2 * i)%nat = blob_bytes blob2 !! (44 + 2 * i)%nat /\
      blob_bytes blob1 !! (44 + 2 * i + 1)%nat = blob_bytes blob2 !! (44 + 2 * i + 1)%nat.
Proof.
  split; [reflexivity |].
  apply (header_payload_independent [of_Z 1; half; NaN] [of_Z 0; half; three_halves] None).
  reflexivity.
Defined.

(** * Further properties of [clamp] *)

Section Clamp.

Lemma leb_trans (a b c : number) : leb a b = true -> leb b c = true -> leb a c = true.
Proof. order_cases. Qed.

Lemma leb_refl (a : number) : isNaN a = false -> leb a a = true.
Proof.
  unfold leb, SFleb. destruct a as [[] | [] | | [] m e]; cbn [SFcompare isNaN];
    try discriminate; try reflexivity; intros _;
    rewrite Z.compare_refl, Pos.compare_cont_spec, Pos.compare_refl; reflexivity.
Qed.

Lemma leb_not_nan (a b : number) : leb a b = true -> isNaN a = false /\ isNaN b = false.
Proof. unfold leb, SFleb. destruct a, b; cbn; intros; (discriminate || now split). Qed.

Lemma not_gtb_leb (a b : number) :
  isNaN a = false -> isNaN b = false -> gtb a b = false -> leb a b = true.
Proof. order_cases. Qed.

Lemma not_ltb_leb (a b : number) :
  isNaN a = false -> isNaN b = false -> ltb a b = false -> leb b a = true.
Proof. order_cases. Qed.

Lemma leb_not_ltb (a b : number) : leb a b = true -> ltb b a = false.
Proof. order_cases. Qed.

Lemma ltb_leb (a b : number) : ltb a b = true -> leb a b = true.
Proof. order_cases. Qed.

Lemma ltb_leb_trans (a b c : number) : ltb a b = true -> leb b c = true -> ltb a c = true.
Proof. order_cases. Qed.

Lemma leb_ltb_trans (a b c : number) : leb a b = true -> ltb b c = true -> ltb a c = true.
Proof. order_cases. Qed.

Lemma ltb_irrefl (a : number) : ltb a a = false.
Proof.
  unfold ltb, SFltb. destruct a as [[] | [] | | [] m e]; cbn [SFcompare]; try reflexivity;
    rewrite Z.compare_refl, Pos.compare_cont_spec, Pos.compare_refl; reflexivity.
Qed.

(** X1.  For a range with [min <= max] and an input that is not [NaN], the
    result of [clamp] lies in the range. *)
Theorem clamp_within_range (x lo hi : number) :
  leb lo hi = true -> isNaN x = false ->
  leb lo (clamp x {| max := hi; min := lo |}) = true /\
  leb (clamp x {| max := hi; min := lo |}) hi = true.
Proof.
  intros Hle Hx. destruct (leb_not_nan lo hi Hle) as [Hlo Hhi].
  unfold clamp. cbn [max min].
  destruct (gtb x hi) eqn:Hgt; [split; [exact Hle | now apply leb_refl] |].
  destruct (ltb x lo) eqn:Hlt; [split; [now apply leb_refl | exact Hle] |].
  split; [now apply not_ltb_leb | now apply not_gtb_leb].
Qed.

Lemma clamp_within_range_witness :
  leb (of_Z (-1)) (of_Z 1) = true /\ isNaN three_halves = false /\
  leb (of_Z (-1)) (clamp three_halves {| max := of_Z 1; min := of_Z (-1) |}) = true /\
  leb (clamp three_halves {| max := of_Z 1; min := of_Z (-1) |}) (of_Z 1) = true.
Proof.
  split; [reflexivity |]. split; [reflexivity |].
  apply (clamp_within_range three_halves (of_Z (-1)) (of_Z 1)); reflexivity.
Defined.

(** X2.  For a range with [min <= max], clamping twice is clamping once. *)
Theorem clamp_idempotent (x lo hi : number) :
  leb lo hi = true ->
  clamp (clamp x {| max := hi; min := lo |}) {| max := hi; min := lo |}
  = clamp x {| max := hi; min := lo |}.
Proof.
  intros Hle. unfold clamp. cbn [max min].
  destruct (gtb x hi) eqn:Hgt.
  - change (gtb hi hi) with (ltb hi hi).
    now rewrite ltb_irrefl, (leb_not_ltb lo hi Hle).
  - destruct (ltb x lo) eqn:Hlt.
    + now rewrite (leb_not_ltb lo hi Hle : gtb lo hi = false), ltb_irrefl.
    + now rewrite Hgt, Hlt.
Qed.

Lemma clamp_idempotent_witness :
  leb (of_Z (-1)) (of_Z 1) = true /\
  clamp (clamp minus_three_halves {| max := of_Z 1; min := of_Z (-1) |})
    {| max := of_Z 1; min := of_Z (-1) |}
  = clamp minus_three_halves {| max := of_Z 1; min := of_Z (-1) |}.
Proof.
  split; [reflexivity |].
  apply (clamp_idempotent minus_three_halves (of_Z (-1)) (of_Z 1)). reflexivity.
Defined.

(** X3.  For a range with [min <= max], [clamp] is monotone: a larger
    input never gives a smaller result. *)
Theorem clamp_monotone (x y lo hi : number) :
  leb lo hi = true -> leb x y = true ->
  leb (clamp x {| max := hi; min := lo |}) (clamp y {| max := hi; min := lo |}) = true.
Proof.
  intros Hle Hxy. destruct (leb_not_nan lo hi Hle) as [Hlo Hhi].
  destruct (leb_not_nan x y Hxy) as [Hx Hy].
  unfold clamp. cbn [max min].
  destruct (gtb x hi) eqn:Hgx.
  - change (gtb y hi) with (ltb hi y). rewrite (ltb_leb_trans hi x y Hgx Hxy).
    now apply leb_refl.
  - destruct (ltb x lo) eqn:Hlx.
    + destruct (gtb y hi) eqn:Hgy; [exact Hle |].
      destruct (ltb y lo) eqn:Hly; [now apply leb_refl | now apply not_ltb_leb].
    + destruct (gtb y hi) eqn:Hgy; [now apply not_gtb_leb |].
      destruct (ltb y lo) eqn:Hly; [| exact Hxy].
      now rewrite (leb_ltb_trans x y lo Hxy Hly) in Hlx.
Qed.

Lemma clamp_monotone_witness :
  leb (of_Z (-1)) (of_Z 1) = true /\ leb half three_halves = true /\
  leb (clamp half {| max := of_Z 1; min := of_Z (-1) |})
      (clamp three_halves {| max := of_Z 1; min := of_Z (-1) |}) = true.
Proof.
  split; [reflexivity |]. split; [reflexivity |].
  apply (clamp_monotone half three_halves (of_Z (-1)) (of_Z 1)); reflexivity.
Defined.

(** X4.  With an inverted range ([max < min]) the input never passes
    through: [clamp] returns [max] for an input above [max] and [min] for
    every other input that is not [NaN]. *)
Theorem clamp_inverted_range (x lo hi : number) :
  ltb hi lo = true -> isNaN x = false ->
  clamp x {| max := hi; min := lo |} = (if gtb x hi then hi else lo).
Proof.
  intros Hinv Hx. unfold clamp. cbn [max min].
  destruct (gtb x hi) eqn:Hgt; [reflexivity |].
  destruct (leb_not_nan hi lo (ltb_leb hi lo Hinv)) as [Hhi Hlo].
  now rewrite (leb_ltb_trans x hi lo (not_gtb_leb x hi Hx Hhi Hgt) Hinv).
Qed.

Lemma clamp_inverted_range_witness :
  ltb (of_Z (-1)) (of_Z 1) = true /\ isNaN (of_Z 0) = false /\
  clamp (of_Z 0) {| max := of_Z (-1); min := of_Z 1 |}
  = (if gtb (of_Z 0) (of_Z (-1)) then of_Z (-1) else of_Z 1).
Proof.
  split; [reflexivity |]. split; [reflexivity |].
  apply (clamp_inverted_range (of_Z 0) (of_Z 1) (of_Z (-1))); reflexivity.
Defined.

End Clamp.

(** * Further properties of [floatTo16BitPCM] *)

Section Frame.

Lemma store_in_range (byteOffset : nat) (bs buf : ArrayBuffer) :
  (byteOffset + length bs <= length buf)%nat ->
  exists buf', store byteOffset bs buf = Normal (tt, buf') /\ length buf' = length buf.
Proof.
  intros H. unfold store.
  replace (byteOffset + length bs <=? length buf)%nat with true
    by (symmetry; apply Nat.leb_le; lia).
  eexists. split; [reflexivity |].
  rewrite !length_app, length_take, length_drop. lia.
Qed.

(** X5.  On a view with room for the samples, [floatTo16BitPCM] returns
    normally, replaces the [2 * N] bytes from [offset] on by the samples'
    bytes, and leaves every byte before and after them, and the length of
    the buffer, as they were. *)
Theorem floatTo16BitPCM_frame (offset : nat) (input : list number) (buf : ArrayBuffer) :
  (offset + length input * 2 <= length buf)%nat ->
  floatTo16BitPCM offset input buf
  = Normal (tt, take offset buf ++ pcm_bytes input ++ drop (offset + length input * 2) buf) /\
  length (take offset buf ++ pcm_bytes input ++ drop (offset + length input * 2) buf)
  = length buf.
Proof.
  intros Hfit. split.
  - unfold floatTo16BitPCM.
    rewrite <- (take_drop offset buf) at 1.
    rewrite <- (take_drop (length input * 2) (drop offset buf)) at 1.
    rewrite drop_drop. apply forEach_pcm_frame.
    + rewrite length_take. lia.
    + rewrite length_take, length_drop. lia.
  - rewrite !length_app, length_take, length_pcm_bytes, length_drop. lia.
Qed.

Lemma floatTo16BitPCM_frame_witness :
  (2 + length [of_Z 1; half] * 2 <= length [7; 7; 7; 7; 7; 7; 7; 7])%nat /\
  floatTo16BitPCM 2 [of_Z 1; half] [7; 7; 7; 7; 7; 7; 7; 7]
  = Normal (tt, take 2 [7; 7; 7; 7; 7; 7; 7; 7] ++ pcm_bytes [of_Z 1; half]
                ++ drop (2 + length [of_Z 1; half] * 2) [7; 7; 7; 7; 7; 7; 7; 7]) /\
  length (take 2 [7; 7; 7; 7; 7; 7; 7; 7] ++ pcm_bytes [of_Z 1; half]
          ++ drop (2 + length [of_Z 1; half] * 2) [7; 7; 7; 7; 7; 7; 7; 7])
  = length [7; 7; 7; 7; 7; 7; 7; 7].
Proof.
  split; [cbn; lia |].
  apply (floatTo16BitPCM_frame 2 [of_Z 1; half] [7; 7; 7; 7; 7; 7; 7; 7]). cbn; lia.
Defined.

Lemma forEach_RangeError (offset : nat) (input : list number) :
  forall (index : nat) (buf : ArrayBuffer),
    input <> [] ->
    (length buf < offset + (index + length input) * 2)%nat ->
    forEach (fun value index => setInt16 (offset + index * 2) (quantize value) true)
      input index buf
    = Throw RangeError.
Proof.
  induction input as [| v input IH]; intros index buf Hne Hshort; [contradiction |].
  cbn [forEach]. unfold bind, setInt16.
  destruct (Nat.le_gt_cases (offset + index * 2 + 2) (length buf)) as [Hfit | Hout].
  - destruct (store_in_range (offset + index * 2) (raw_bytes 2 (ToInt16 (quantize v)) true) buf)
      as (buf' & -> & Hlen); [rewrite length_raw_bytes; exact Hfit |].
    cbn [length] in Hshort. apply IH.
    + intros ->. cbn [length] in Hshort. lia.
    + rewrite Hlen. lia.
  - now rewrite store_out_of_range by (rewrite length_raw_bytes; lia).
Qed.

(** X6.  On a view without room for all the samples, [floatTo16BitPCM]
    throws a [RangeError] (an empty input never throws). *)
Theorem floatTo16BitPCM_RangeError (offset : nat) (input : list number) (buf : ArrayBuffer) :
  input <> [] ->
  (length buf < offset + length input * 2)%nat ->
  floatTo16BitPCM offset input buf = Throw RangeError /\
  floatTo16BitPCM offset [] buf = Normal (tt, buf).
Proof.
  intros Hne Hshort. split; [| reflexivity].
  unfold floatTo16BitPCM. apply forEach_RangeError; [exact Hne | lia].
Qed.

Lemma floatTo16BitPCM_RangeError_witness :
  [of_Z 1; half] <> [] /\
  (length [7; 7; 7; 7; 7] < 2 + length [of_Z 1; half] * 2)%nat /\
  floatTo16BitPCM 2 [of_Z 1; half] [7; 7; 7; 7; 7] = Throw RangeError /\
  floatTo16BitPCM 2 [] [7; 7; 7; 7; 7] = Normal (tt, [7; 7; 7; 7; 7]).
Proof.
  split; [discriminate |]. split; [cbn; lia |].
  apply (floatTo16BitPCM_RangeError 2 [of_Z 1; half] [7; 7; 7; 7; 7]); [discriminate | cbn; lia].
Defined.

End Frame.

(** * Further properties of the encoder *)

Section Encoder.








(** X8.  When the file is shorter than [2^32 + 8] bytes, its header agrees
    with its size: ChunkSize is the length of the file minus 8 and
    Subchunk2Size is the length of the file minus 44, the number of bytes of
    samples. *)
Theorem header_agrees_with_length (data : list number) (sampleRate : option number) :
  36 + Z.of_nat (length data) * 2 < 2 ^ 32 ->
  exists blob,
    encode data sampleRate = Normal blob /\
    getUint32 (blob_bytes blob) 4 true = Some (Z.of_nat (length (blob_bytes blob)) - 8) /\
    getUint32 (blob_bytes blob) 40 true = Some (Z.of_nat (length (blob_bytes blob)) - 44) /\
    getUint32 (blob_bytes blob) 40 true
    = Some (Z.of_nat (length (drop 44 (blob_bytes blob)))).
Proof.
  intros Hlt. change (2 ^ 32) with 4294967296 in Hlt.
  assert (2 ^ 53 = 9007199254740992) as H53 by reflexivity.
  eexists. split; [apply encode_spec |]. cbn [blob_bytes].
  destruct (length_arithmetic (Z.of_nat (length data))) as (Hmul & Hadd & _); [lia .. |].
  rewrite ChunkSize_field, Subchunk2Size_field, Hadd, Hmul, !ToUint32_of_Z by lia.
  change (2 ^ 32) with 4294967296. rewrite !Z.mod_small by lia.
  rewrite length_drop, length_app, length_header, length_pcm_bytes.
  repeat split; f_equal; lia.
Qed.

Lemma header_agrees_with_length_witness :
  36 + Z.of_nat (length [half; NaN; of_Z 1]) * 2 < 2 ^ 32 /\
  exists blob,
    encode [half; NaN; of_Z 1] None = Normal blob /\
    getUint32 (blob_bytes blob) 4 true = Some (Z.of_nat (length (blob_bytes blob)) - 8) /\
    getUint32 (blob_bytes blob) 40 true = Some (Z.of_nat (length (blob_bytes blob)) - 44) /\
    getUint32 (blob_bytes blob) 40 true
    = Some (Z.of_nat (length (drop 44 (blob_bytes blob)))).
Proof.
  split; [reflexivity |].
  apply (header_agrees_with_length [half; NaN; of_Z 1] None). reflexivity.
Defined.

(** X9.  The samples of a concatenation are the samples of its parts, one
    after the other, whatever the sample rates: the bytes after the header
    of [encode (data1 ++ data2)] are those of [encode data1] followed by
    those of [encode data2]. *)
Theorem payload_of_concatenation (data1 data2 : list number)
    (sampleRate sampleRate1 sampleRate2 : option number) :
  exists blob blob1 blob2,
    encode (data1 ++ data2) sampleRate = Normal blob /\
    encode data1 sampleRate1 = Normal blob1 /\
    encode data2 sampleRate2 = Normal blob2 /\
    drop 44 (blob_bytes blob) = drop 44 (blob_bytes blob1) ++ drop 44 (blob_bytes blob2).
Proof.
  do 3 eexists. repeat (split; [apply encode_spec |]). cbn [blob_bytes].
  rewrite !drop_app_length' by reflexivity.
  apply pcm_bytes_app.
Qed.

Lemma quantize_above (value : number) :
  gtb value (of_Z 1) = true -> ToInt16 (quantize value) = 32767.
Proof. intros H. unfold quantize, clamp. cbn [max min]. now rewrite H. Qed.

Lemma quantize_below (value : number) :
  ltb value (of_Z (-1)) = true -> ToInt16 (quantize value) = -32768.
Proof.
  intros H. unfold quantize, clamp. cbn [max min].
  now rewrite (ltb_leb_not_gtb value (of_Z (-1)) (of_Z 1) H eq_refl), H.
Qed.

Lemma quantize_sign (value : number) :
  valid value = true ->
  if ltb value (of_Z 0)
  then -32768 <= ToInt16 (quantize value) <= 0
  else 0 <= ToInt16 (quantize value) <= 32767.
Proof.
  intros Hv. destruct value as [s | s | | s m e].
  - destruct s; vm_compute; split; discriminate.
  - destruct s; vm_compute; split; discriminate.
  - vm_compute; split; discriminate.
  - rewrite ltb_finite_0.
    destruct (gtb (S754_finite s m e) (of_Z 1)) eqn:Hgt.
    { rewrite (quantize_above _ Hgt). destruct s; [discriminate Hgt | lia]. }
    destruct (ltb (S754_finite s m e) (of_Z (-1))) eqn:Hlt.
    { rewrite (quantize_below _ Hlt). destruct s; [lia | discriminate Hlt]. }
    unfold quantize, clamp. cbn [max min]. rewrite Hgt, Hlt, ltb_finite_0.
    destruct (valid_finite _ _ _ Hv) as [Hm _].
    destruct s.
    + destruct (not_ltb_m1 m e Hv Hlt) as [-> | He];
        [vm_compute; split; discriminate |].
      pose proof (mul_0x8000_below m e He Hm) as H.
      destruct (mul _ _) as [s' | s' | | s' m' e']; [cbn; lia | destruct H .. |].
      rewrite ToInt16_range; lia.
    + destruct (not_gtb_1 m e Hv Hgt) as [-> | He];
        [vm_compute; split; discriminate |].
      pose proof (mul_0x7FFF_below m e He Hm) as H.
      destruct (mul _ _) as [s' | s' | | s' m' e']; [cbn; lia | destruct H .. |].
      rewrite ToInt16_range; lia.
Qed.

(** X10.  The sign of a sample is kept and samples out of range saturate:
    for a sample that is a valid double, the integer read back at its
    offset is 32767 when the sample is above 1, -32768 when it is below -1,
    in [[-32768, 0]] when the sample is negative and in [[0, 32767]]
    otherwise. *)
Theorem sample_sign_and_saturation (data : list number) (sampleRate : option number)
    (i : nat) (value : number) :
  valid value = true ->
  data !! i = Some value ->
  exists blob z,
    encode data sampleRate = Normal blob /\
    getInt16 (blob_bytes blob) (44 + 2 * i) true = Some z /\
    (gtb value (of_Z 1) = true -> z = 32767) /\
    (ltb value (of_Z (-1)) = true -> z = -32768) /\
    (if ltb value (of_Z 0) then -32768 <= z <= 0 else 0 <= z <= 32767).
Proof.
  intros Hv Hi. eexists. exists (ToInt16 (quantize value)).
  split; [apply encode_spec |]. cbn [blob_bytes].
  split; [now apply getInt16_sample |].
  split; [apply quantize_above |]. split; [apply quantize_below |].
  now apply quantize_sign.
Qed.

Lemma sample_sign_and_saturation_witness :
  valid minus_three_halves = true /\
  [half; minus_three_halves] !! 1%nat = Some minus_three_halves /\
  exists blob z,
    encode [half; minus_three_halves] None = Normal blob /\
    getInt16 (blob_bytes blob) (44 + 2 * 1) true = Some z /\
    (gtb minus_three_halves (of_Z 1) = true -> z = 32767) /\
    (ltb minus_three_halves (of_Z (-1)) = true -> z = -32768) /\
    (if ltb minus_three_halves (of_Z 0) then -32768 <= z <= 0 else 0 <= z <= 32767).
Proof.
  split; [reflexivity |]. split; [reflexivity |].
  apply (sample_sign_and_saturation [half; minus_three_halves] None 1 minus_three_halves);
    reflexivity.
Defined.

End Encoder.

(** * Rounding is monotone *)

Section Monotone.

Lemma shr_1_loc (M k : Z) (mrs : shr_record) :
  0 <= M -> 0 <= k ->
  shr_m mrs = M / 2 ^ k ->
  loc_of_shr_record mrs = loc_of (M mod 2 ^ k) (2 ^ k) ->
  shr_m (shr_1 mrs) = M / 2 ^ (k + 1) /\
  loc_of_shr_record (shr_1 mrs) = loc_of (M mod 2 ^ (k + 1)) (2 ^ (k + 1)).
Proof.
  intros HM Hk Hm Hloc.
  assert (0 < 2 ^ k) as Hh by (apply Z.pow_pos_nonneg; lia).
  pose proof (Z.mod_pos_bound M (2 ^ k) Hh) as Hr.
  assert (0 <= M / 2 ^ k) as Hq by (apply Z.div_pos; lia).
  rewrite Z.pow_add_r, Z.pow_1_r by lia.
  rewrite <- Z.div_div, Z.rem_mul_r by lia.
  set (q := M / 2 ^ k) in *. set (r := M mod 2 ^ k) in *. set (h := 2 ^ k) in *.
  pose proof (Z.mod_pos_bound q 2 eq_refl) as Hq2.
  pose proof (Z.div_mod q 2 ltac:(lia)) as Hdm.
  destruct mrs as [m rb sb]. cbn [shr_m] in Hm. subst m.
  assert (shr_m (shr_1 {| shr_m := q; shr_r := rb; shr_s := sb |}) = q / 2) as Hm1.
  { rewrite shr_1_m by exact Hq. apply Z.div2_div. }
  split; [exact Hm1 |].
  assert (shr_r (shr_1 {| shr_m := q; shr_r := rb; shr_s := sb |}) = Z.odd q) as Hr1.
  { destruct q as [| [p | p |] | p]; try reflexivity. lia. }
  assert (shr_s (shr_1 {| shr_m := q; shr_r := rb; shr_s := sb |}) = orb rb sb) as Hs1.
  { destruct q as [| [p | p |] | [p | p |]]; reflexivity. }
  destruct (shr_1 _) as [m1 r1 s1]. cbn [shr_m shr_r shr_s] in *. subst r1 s1.
  rewrite Zmod_odd in *.
  unfold loc_of in *. cbn [loc_of_shr_record] in *.
  destruct (Z.eqb_spec r 0) as [Hr0 | Hr0];
    destruct (Z.odd q); destruct rb, sb; try discriminate Hloc;
    repeat match goal with
      | |- context [?a =? 0] => destruct (Z.eqb_spec a 0)
      | |- context [?a ?= ?b] => destruct (Z.compare_spec a b)
      | H : context [?a ?= ?b] |- _ => destruct (Z.compare_spec a b)
      end;
    try reflexivity; try discriminate Hloc; lia.
Qed.

Lemma shr_iter_loc (M : Z) (n : positive) :
  0 <= M ->
  forall (k : Z) (mrs : shr_record),
    0 <= k ->
    shr_m mrs = M / 2 ^ k ->
    loc_of_shr_record mrs = loc_of (M mod 2 ^ k) (2 ^ k) ->
    shr_m (SpecFloat.iter_pos shr_1 n mrs) = M / 2 ^ (k + Zpos n) /\
    loc_of_shr_record (SpecFloat.iter_pos shr_1 n mrs)
    = loc_of (M mod 2 ^ (k + Zpos n)) (2 ^ (k + Zpos n)).
Proof.
  intros HM. induction n as [n IH | n IH |]; intros k mrs Hk Hm Hloc;
    cbn [SpecFloat.iter_pos].
  - destruct (shr_1_loc M k mrs HM Hk Hm Hloc) as [Hm1 Hloc1].
    destruct (IH (k + 1) _ ltac:(lia) Hm1 Hloc1) as [Hm2 Hloc2].
    destruct (IH (k + 1 + Zpos n) _ ltac:(lia) Hm2 Hloc2) as [Hm3 Hloc3].
    replace (k + Zpos n~1) with (k + 1 + Zpos n + Zpos n) by lia. now split.
  - destruct (IH k _ Hk Hm Hloc) as [Hm2 Hloc2].
    destruct (IH (k + Zpos n) _ ltac:(lia) Hm2 Hloc2) as [Hm3 Hloc3].
    replace (k + Zpos n~0) with (k + Zpos n + Zpos n) by lia. now split.
  - now apply shr_1_loc.
Qed.

(** Shifting an exact mantissa by [k] bits leaves its quotient by [2^k] and
    the location of its remainder. *)
Lemma shr_loc (M E k : Z) :
  0 <= M -> 0 <= k ->
  exists mrs,
    shr (shr_record_of_loc M loc_Exact) E k = (mrs, E + k) /\
    round_nearest_even (shr_m mrs) (loc_of_shr_record mrs) = rne M k.
Proof.
  intros HM Hk. unfold rne. destruct k as [| n | n]; [| | lia].
  - eexists. split; [cbn [shr]; now rewrite Z.add_0_r |].
    cbn [shr_record_of_loc shr_m loc_of_shr_record].
    now rewrite Z.pow_0_r, Z.div_1_r, Z.mod_1_r.
  - eexists. split; [reflexivity |].
    destruct (shr_iter_loc M n HM 0 (shr_record_of_loc M loc_Exact)) as [-> ->];
      [lia | | | reflexivity].
    + cbn. now rewrite Z.div_1_r.
    + cbn. now rewrite Z.mod_1_r.
Qed.

Lemma rne_bounds (M k : Z) : M / 2 ^ k <= rne M k <= M / 2 ^ k + 1.
Proof. apply round_nearest_even_bounds. Qed.

(** The product of a rounding: a zero or a finite number whose mantissa, on
    the grid of the rounding, is the nearest integer. *)
Lemma binary_round_aux_rne (s : bool) (M : positive) (E g : Z) :
  g = fexp prec emax (Zpos (digits2_pos M) + E) ->
  E <= g < 0 ->
  match binary_round_aux prec emax s (Zpos M) E loc_Exact with
  | S754_zero _ => rne (Zpos M) (g - E) = 0
  | S754_finite s' m' e' =>
      s' = s /\ g <= e' <= 0 /\ Zpos m' * 2 ^ (e' - g) = rne (Zpos M) (g - E)
  | _ => False
  end.
Proof.
  intros Hg Hrange.
  assert (- 1074 <= g) as Hmin by (rewrite Hg, fexp_eq; lia).
  unfold binary_round_aux, shr_fexp. cbn [Zdigits2]. rewrite <- Hg.
  destruct (shr_loc (Zpos M) E (g - E)) as (mrs1 & -> & ->); [lia | lia |].
  replace (E + (g - E)) with g by lia.
  pose proof (rne_bounds (Zpos M) (g - E)) as HN.
  set (N := rne (Zpos M) (g - E)) in *.
  assert (0 < 2 ^ (g - E)) as Hh by (apply Z.pow_pos_nonneg; lia).
  assert (0 <= Zpos M / 2 ^ (g - E) < 2 ^ 53) as Hq.
  { split; [apply Z.div_pos; lia |].
    apply Z.div_lt_upper_bound; [lia |].
    destruct (digits2_pos_bounds M) as [_ Hhi].
    eapply Z.lt_le_trans; [exact Hhi |].
    rewrite <- Z.pow_add_r by lia. apply Z.pow_le_mono_r; [lia |].
    rewrite Hg, fexp_eq. lia. }
  change (2 ^ 53) with 9007199254740992 in Hq.
  destruct (Z.eq_dec N 9007199254740992) as [HN53 | HN53].
  - rewrite HN53. change (Zdigits2 9007199254740992) with 54.
    cbn [shr_record_of_loc]. rewrite fexp_eq.
    replace (Z.max (54 + g - 53) (-1074) - g) with 1 by lia.
    cbn [shr SpecFloat.iter_pos shr_1 shr_m].
    replace (g + 1 <=? emax - prec) with true
      by (symmetry; apply Z.leb_le; unfold emax, prec; lia).
    split; [reflexivity |]. split; [lia |].
    replace (g + 1 - g) with 1 by lia. reflexivity.
  - assert (0 <= N < 9007199254740992) as HNlt by lia.
    assert (Zdigits2 N <= 53) as Hd by (apply Zdigits2_le; [exact HNlt | lia]).
    unfold shr. rewrite fexp_eq.
    destruct (Z.max (Zdigits2 N + g - 53) (-1074) - g) as [| kk | kk] eqn:Hk2; [| lia |].
    + cbn [shr_record_of_loc shr_m]. destruct N as [| n | n]; [reflexivity | | lia].
      replace (g <=? emax - prec) with true
        by (symmetry; apply Z.leb_le; unfold emax, prec; lia).
      split; [reflexivity |]. split; [lia |].
      rewrite Z.sub_diag. lia.
    + cbn [shr_record_of_loc shr_m]. destruct N as [| n | n]; [reflexivity | | lia].
      replace (g <=? emax - prec) with true
        by (symmetry; apply Z.leb_le; unfold emax, prec; lia).
      split; [reflexivity |]. split; [lia |].
      rewrite Z.sub_diag. lia.
Qed.

Lemma loc_of_scale (r h c : Z) : 0 < c -> loc_of (r * c) (h * c) = loc_of r h.
Proof.
  intros Hc. unfold loc_of.
  destruct (Z.eqb_spec (r * c) 0), (Z.eqb_spec r 0); try nia; [reflexivity |].
  f_equal. destruct (Z.compare_spec (2 * (r * c)) (h * c)), (Z.compare_spec (2 * r) h);
    try reflexivity; nia.
Qed.

Lemma rne_scale (M k j : Z) :
  0 <= k -> 0 <= j -> rne (M * 2 ^ j) (k + j) = rne M k.
Proof.
  intros Hk Hj. unfold rne.
  assert (0 < 2 ^ j) by (apply Z.pow_pos_nonneg; lia).
  assert (0 < 2 ^ k) by (apply Z.pow_pos_nonneg; lia).
  rewrite Z.pow_add_r, Z.div_mul_cancel_r, Z.mul_mod_distr_r by lia.
  now rewrite loc_of_scale.
Qed.

Lemma rne_monotone (M M' k : Z) :
  0 <= M <= M' -> 0 <= k -> rne M k <= rne M' k.
Proof.
  intros HM Hk.
  assert (0 < 2 ^ k) as Hh by (apply Z.pow_pos_nonneg; lia).
  pose proof (Z.div_le_mono M M' (2 ^ k) Hh ltac:(lia)) as Hq.
  pose proof (rne_bounds M k) as HN. pose proof (rne_bounds M' k) as HN'.
  destruct (Z.eq_dec (M / 2 ^ k) (M' / 2 ^ k)) as [Heq | Hne]; [| lia].
  pose proof (Z.div_mod M (2 ^ k) ltac:(lia)) as HdM.
  pose proof (Z.div_mod M' (2 ^ k) ltac:(lia)) as HdM'.
  pose proof (Z.mod_pos_bound M (2 ^ k) Hh) as Hr.
  pose proof (Z.mod_pos_bound M' (2 ^ k) Hh) as Hr'.
  unfold rne, loc_of. rewrite <- Heq in *.
  set (q := M / 2 ^ k) in *. set (r := M mod 2 ^ k) in *. set (r' := M' mod 2 ^ k) in *.
  set (h := 2 ^ k) in *.
  assert (r <= r') as Hrr by nia.
  destruct (Z.eqb_spec r 0), (Z.eqb_spec r' 0); cbn [round_nearest_even]; try lia;
    destruct (Z.compare_spec (2 * r) h), (Z.compare_spec (2 * r') h);
    cbn [round_nearest_even]; destruct (Z.even q); lia.
Qed.

Lemma Zdigits2_bounds (P : Z) :
  0 < P -> 2 ^ (Zdigits2 P - 1) <= P < 2 ^ Zdigits2 P.
Proof. intros HP. destruct P as [| p | p]; try lia. apply digits2_pos_bounds. Qed.

Lemma Zdigits2_monotone (P P' : Z) : 0 < P <= P' -> Zdigits2 P <= Zdigits2 P'.
Proof.
  intros HP.
  destruct (Zdigits2_bounds P ltac:(lia)) as [Hlo _].
  destruct (Zdigits2_bounds P' ltac:(lia)) as [_ Hhi].
  assert (2 ^ (Zdigits2 P - 1) < 2 ^ Zdigits2 P') as H by lia.
  apply Z.pow_lt_mono_r_iff in H; [lia | lia |].
  destruct P' as [| p | p]; cbn; lia.
Qed.

(** Rounding to 53 bits is monotone. *)
Lemma round53_monotone (emin P P' : Z) :
  0 <= emin -> 0 < P <= P' -> round53 emin P <= round53 emin P'.
Proof.
  intros Hemin HP. unfold round53, grid.
  pose proof (Zdigits2_monotone P P' HP) as Hd.
  destruct (Zdigits2_bounds P ltac:(lia)) as [_ Hhi].
  destruct (Zdigits2_bounds P' ltac:(lia)) as [Hlo' _].
  set (G := Z.max (Zdigits2 P - 53) emin) in *.
  set (G' := Z.max (Zdigits2 P' - 53) emin) in *.
  assert (0 < 2 ^ G) as HG by (apply Z.pow_pos_nonneg; lia).
  assert (0 < 2 ^ G') as HG' by (apply Z.pow_pos_nonneg; lia).
  destruct (Z.eq_dec G G') as [<- | Hne].
  - apply Z.mul_le_mono_nonneg_r; [lia |]. apply rne_monotone; lia.
  - assert (G + 1 <= G') as Hlt by lia.
    assert (G' = Zdigits2 P' - 53) as HG'eq by lia.
    assert (rne P G <= 2 ^ 53) as HN.
    { pose proof (rne_bounds P G) as Hb.
      assert (P / 2 ^ G < 2 ^ 53); [| lia].
      apply Z.div_lt_upper_bound; [lia |].
      eapply Z.lt_le_trans; [exact Hhi |].
      rewrite <- Z.pow_add_r by lia. apply Z.pow_le_mono_r; lia. }
    assert (2 ^ 52 <= rne P' G') as HN'.
    { pose proof (rne_bounds P' G') as Hb.
      assert (2 ^ 52 <= P' / 2 ^ G'); [| lia].
      apply Z.div_le_lower_bound; [lia |].
      rewrite <- Z.pow_add_r by lia.
      eapply Z.le_trans; [| exact Hlo']. apply Z.pow_le_mono_r; lia. }
    apply Z.le_trans with (2 ^ 53 * 2 ^ G); [apply Z.mul_le_mono_nonneg_r; lia |].
    apply Z.le_trans with (2 ^ 52 * 2 ^ G'); [| apply Z.mul_le_mono_nonneg_r; lia].
    rewrite <- !Z.pow_add_r by lia. apply Z.pow_le_mono_r; lia.
Qed.

Lemma Zdigits2_lower (z k : Z) : 0 <= k -> 2 ^ k <= z -> k + 1 <= Zdigits2 z.
Proof.
  intros Hk Hz. assert (0 < 2 ^ k) by (apply Z.pow_pos_nonneg; lia).
  destruct (Zdigits2_bounds z ltac:(lia)) as [_ Hhi].
  assert (2 ^ k < 2 ^ Zdigits2 z) as H' by lia.
  apply Z.pow_lt_mono_r_iff in H'; [lia | lia |].
  destruct z as [| p | p]; cbn; lia.
Qed.

Lemma Zdigits2_shift (M j : Z) :
  0 < M -> 0 <= j -> Zdigits2 (M * 2 ^ j) = Zdigits2 M + j.
Proof.
  intros HM Hj. assert (0 < 2 ^ j) by (apply Z.pow_pos_nonneg; lia).
  destruct M as [| m | m]; try lia.
  destruct (Zpos m * 2 ^ j) as [| p | p] eqn:HP; try lia.
  cbn [Zdigits2]. now apply digits2_pos_shift.
Qed.

Lemma valid_exponent (s : bool) (m : positive) (e : Z) :
  valid (S754_finite s m e) = true -> -1074 <= e.
Proof.
  unfold valid, valid_binary, bounded, canonical_mantissa.
  rewrite fexp_eq. intros [Hc%Z.eqb_eq _]%andb_true_iff. lia.
Qed.

(** The product of a valid number of magnitude below 1 and a constant
    below [2^16] with a full mantissa: the exact product, as an integer
    multiple of [2^(ec - 1074)], rounded to 53 bits. *)
Lemma mul_round53 (s : bool) (m mc : positive) (e ec : Z) :
  valid (S754_finite s m e) = true -> e <= -53 ->
  Zpos (digits2_pos mc) = 53 -> -60 <= ec <= -37 ->
  match mul (S754_finite s m e) (S754_finite false mc ec) with
  | S754_zero _ => round53 (- ec) (Zpos m * Zpos mc * 2 ^ (e + 1074)) = 0
  | S754_finite s' m' e' =>
      s' = s /\ e' <= 0 /\ 0 <= e' + 1074 /\
      Zpos m' * 2 ^ (e' + 1074 - ec)
      = round53 (- ec) (Zpos m * Zpos mc * 2 ^ (e + 1074))
  | _ => False
  end.
Proof.
  intros Hv He Hdc Hec.
  pose proof (valid_exponent _ _ _ Hv) as Hemin.
  destruct (valid_finite _ _ _ Hv) as [Hm Hnormal].
  destruct (digits2_pos_bounds m) as [Hmlo Hmhi].
  destruct (digits2_pos_bounds mc) as [Hclo Hchi]. rewrite Hdc in Hclo, Hchi.
  change (2 ^ (53 - 1)) with (2 ^ 52) in Hclo.
  set (dm := Zpos (digits2_pos m)) in *.
  assert (1 <= dm <= 53) as Hdm.
  { split; [unfold dm; lia |]. apply (Zdigits2_le (Zpos m)); lia. }
  assert (0 < 2 ^ (dm - 1)) as Hp1 by (apply Z.pow_pos_nonneg; lia).
  assert (dm + 52 <= Zpos (digits2_pos (m * mc)) <= dm + 53) as HdM.
  { rewrite <- (Z.add_0_r (Zpos (digits2_pos (m * mc)))).
    change (Zpos (digits2_pos (m * mc))) with (Zdigits2 (Zpos (m * mc))).
    rewrite Z.add_0_r, Pos2Z.inj_mul. split.
    - replace (dm + 52) with (dm - 1 + 52 + 1) by lia.
      apply Zdigits2_lower; [lia |]. rewrite Z.pow_add_r by lia. nia.
    - apply Zdigits2_le; [| lia]. split; [lia |].
      rewrite Z.pow_add_r by lia. nia. }
  assert (e = -1074 \/ dm = 53) as Hcases.
  { destruct Hnormal as [-> | Hn]; [now left | right].
    assert (52 + 1 <= Zdigits2 (Zpos m)) by (apply Zdigits2_lower; lia).
    cbn [Zdigits2] in *. lia. }
  unfold mul, SFmul. rewrite xorb_false_r.
  set (g := fexp prec emax (Zpos (digits2_pos (m * mc)) + (e + ec))).
  assert (e + ec <= g < 0 /\ -1074 <= g) as (Hrange & Hgmin)
      by (unfold g; rewrite fexp_eq; lia).
  pose proof (binary_round_aux_rne s (m * mc) (e + ec) g eq_refl Hrange) as H.
  assert (round53 (- ec) (Zpos m * Zpos mc * 2 ^ (e + 1074))
          = rne (Zpos (m * mc)) (g - (e + ec)) * 2 ^ (g + 1074 - ec)) as Hround.
  { unfold round53, grid. rewrite <- Pos2Z.inj_mul.
    rewrite Zdigits2_shift by lia. cbn [Zdigits2].
    replace (Z.max (Zpos (digits2_pos (m * mc)) + (e + 1074) - 53) (- ec))
      with (g + 1074 - ec) by (unfold g; rewrite fexp_eq; lia).
    f_equal. replace (g + 1074 - ec) with (g - (e + ec) + (e + 1074)) by lia.
    apply rne_scale; lia. }
  rewrite Hround.
  destruct (binary_round_aux _ _ _ _ _ _) as [s' | s' | | s' m' e']; try exact H.
  - now rewrite H.
  - destruct H as (-> & He' & <-). repeat split; try lia.
    rewrite <- Z.mul_assoc, <- Z.pow_add_r by lia. f_equal. f_equal. lia.
Qed.

(** The integer part of a finite number, from its mantissa scaled to an
    integer. *)
Lemma shiftl_scaled (m' : positive) (e' sigma : Z) :
  e' <= 0 -> 0 <= e' + sigma ->
  Z.shiftl (Zpos m') e' = Zpos m' * 2 ^ (e' + sigma) / 2 ^ sigma.
Proof.
  intros He' Hs. rewrite Z.shiftl_div_pow2 by lia.
  replace sigma with (- e' + (e' + sigma)) at 2 by lia.
  rewrite (Z.pow_add_r 2 (- e') (e' + sigma)) by lia.
  rewrite Z.div_mul_cancel_r; [reflexivity | |]; apply Z.pow_nonzero; lia.
Qed.

Lemma ToInt16_mul_0x7FFF (m : positive) (e : Z) :
  valid (S754_finite false m e) = true -> e <= -53 ->
  ToInt16 (mul (S754_finite false m e) (of_Z 0x7FFF))
  = round53 38 (Zpos m * 9006924376834048 * 2 ^ (e + 1074)) / 2 ^ 1112.
Proof.
  intros Hv He. destruct (valid_finite _ _ _ Hv) as [Hm _].
  pose proof (mul_0x7FFF_below m e He Hm) as Hrange.
  rewrite of_Z_0x7FFF in *.
  pose proof (mul_round53 false m 9006924376834048 e (-38) Hv He eq_refl ltac:(lia)) as H.
  change (- -38) with 38 in H.
  destruct (mul _ _) as [s' | s' | | s' m' e']; try contradiction.
  - rewrite H. reflexivity.
  - destruct H as (-> & He' & Hs & <-).
    rewrite ToInt16_range by lia. unfold truncate. cbn [cond_Zopp].
    replace (e' + 1074 - -38) with (e' + 1112) by lia.
    apply shiftl_scaled; lia.
Qed.

Lemma ToInt16_mul_0x8000 (m : positive) (e : Z) :
  valid (S754_finite true m e) = true -> e <= -53 ->
  ToInt16 (mul (S754_finite true m e) (of_Z 0x8000))
  = - (round53 37 (Zpos m * 4503599627370496 * 2 ^ (e + 1074)) / 2 ^ 1111).
Proof.
  intros Hv He. destruct (valid_finite _ _ _ Hv) as [Hm _].
  pose proof (mul_0x8000_below m e He Hm) as Hrange.
  rewrite of_Z_0x8000 in *.
  pose proof (mul_round53 true m 4503599627370496 e (-37) Hv He eq_refl ltac:(lia)) as H.
  change (- -37) with 37 in H.
  destruct (mul _ _) as [s' | s' | | s' m' e']; try contradiction.
  - rewrite H. reflexivity.
  - destruct H as (-> & He' & Hs & <-).
    rewrite ToInt16_range by lia. unfold truncate. cbn [cond_Zopp].
    replace (e' + 1074 - -37) with (e' + 1111) by lia.
    f_equal. apply shiftl_scaled; lia.
Qed.

(** The order of valid positive numbers is the order of their mantissas
    scaled to integers. *)
Lemma leb_scaled (m1 m2 : positive) (e1 e2 : Z) :
  valid (S754_finite false m1 e1) = true -> valid (S754_finite false m2 e2) = true ->
  leb (S754_finite false m1 e1) (S754_finite false m2 e2) = true ->
  0 < Zpos m1 * 2 ^ (e1 + 1074) <= Zpos m2 * 2 ^ (e2 + 1074).
Proof.
  intros Hv1 Hv2. pose proof (valid_exponent _ _ _ Hv1) as He1.
  pose proof (valid_exponent _ _ _ Hv2) as He2.
  destruct (valid_finite _ _ _ Hv1) as [Hm1 _].
  destruct (valid_finite _ _ _ Hv2) as [_ Hn2].
  assert (0 < 2 ^ (e1 + 1074)) by (apply Z.pow_pos_nonneg; lia).
  assert (0 < 2 ^ (e2 + 1074)) by (apply Z.pow_pos_nonneg; lia).
  unfold leb, SFleb, SFcompare.
  destruct (Z.compare_spec e1 e2) as [-> | Hlt | Hgt]; [| | discriminate].
  - rewrite Pos.compare_cont_spec.
    destruct (Pos.compare_spec m1 m2) as [-> | Hc | Hc]; cbn [Pos.switch_Eq];
      try discriminate; intros _; split; try lia.
    apply Pos2Z.pos_lt_pos in Hc. nia.
  - intros _. split; [lia |]. destruct Hn2 as [-> | Hn2]; [lia |].
    apply Z.le_trans with (2 ^ 53 * 2 ^ (e1 + 1074)); [nia |].
    apply Z.le_trans with (2 ^ 52 * 2 ^ (e2 + 1074)); [| nia].
    rewrite <- !Z.pow_add_r by lia. apply Z.pow_le_mono_r; lia.
Qed.

Lemma leb_negative (m1 m2 : positive) (e1 e2 : Z) :
  leb (S754_finite true m1 e1) (S754_finite true m2 e2) = true ->
  leb (S754_finite false m2 e2) (S754_finite false m1 e1) = true.
Proof.
  unfold leb, SFleb. cbn [SFcompare].
  intros H; compare_cases; try discriminate; try reflexivity; exfalso; lia.
Qed.

Lemma quantize_small_positive (m : positive) (e : Z) :
  e <= -53 ->
  quantize (S754_finite false m e) = mul (S754_finite false m e) (of_Z 0x7FFF).
Proof.
  intros He. unfold quantize, clamp. cbn [max min].
  assert (gtb (S754_finite false m e) (of_Z 1) = false) as ->.
  { rewrite of_Z_1. unfold gtb, SFltb. cbn [SFcompare].
    destruct (Z.compare_spec (-52) e); (reflexivity || lia). }
  assert (ltb (S754_finite false m e) (of_Z (-1)) = false) as -> by reflexivity.
  now rewrite ltb_finite_0.
Qed.

Lemma quantize_small_negative (m : positive) (e : Z) :
  e <= -53 ->
  quantize (S754_finite true m e) = mul (S754_finite true m e) (of_Z 0x8000).
Proof.
  intros He. unfold quantize, clamp. cbn [max min].
  assert (gtb (S754_finite true m e) (of_Z 1) = false) as -> by reflexivity.
  assert (ltb (S754_finite true m e) (of_Z (-1)) = false) as ->.
  { rewrite of_Z_m1. unfold ltb, SFltb. cbn [SFcompare].
    destruct (Z.compare_spec e (-52)); (reflexivity || lia). }
  now rewrite ltb_finite_0.
Qed.

Lemma valid_opp (m : positive) (e : Z) :
  valid (S754_finite true m e) = valid (S754_finite false m e).
Proof. reflexivity. Qed.

(** Quantization is monotone. *)
Lemma quantize_monotone (x y : number) :
  valid x = true -> valid y = true -> leb x y = true ->
  ToInt16 (quantize x) <= ToInt16 (quantize y).
Proof.
  intros Hvx Hvy Hle.
  pose proof (quantize_sign x Hvx) as Sx. pose proof (quantize_sign y Hvy) as Sy.
  destruct (ltb x (of_Z 0)) eqn:Lx, (ltb y (of_Z 0)) eqn:Ly; [| lia | |].
  - (* both negative *)
    destruct (ltb x (of_Z (-1))) eqn:Bx; [rewrite (quantize_below x Bx); lia |].
    destruct x as [sx | sx | | sx mx ex]; try discriminate; try (destruct sx; discriminate).
    destruct y as [sy | sy | | sy my ey]; try discriminate; try (destruct sy; discriminate).
    rewrite ltb_finite_0 in Lx, Ly. subst sx sy.
    assert (ltb (S754_finite true my ey) (of_Z (-1)) = false) as By.
    { destruct (ltb (S754_finite true my ey) (of_Z (-1))) eqn:By; [| reflexivity].
      now rewrite (leb_ltb_trans _ _ _ Hle By) in Bx. }
    destruct (not_ltb_m1 mx ex Hvx Bx) as [Hx1 | Hex].
    { rewrite Hx1. change (ToInt16 (quantize (of_Z (-1)))) with (-32768). lia. }
    destruct (not_ltb_m1 my ey Hvy By) as [Hy1 | Hey].
    { exfalso. rewrite Hy1, of_Z_m1 in Hle. unfold leb, SFleb in Hle.
      cbn [SFcompare] in Hle.
      destruct (Z.compare_spec ex (-52)); (discriminate Hle || lia). }
    rewrite quantize_small_negative, quantize_small_negative by assumption.
    rewrite ToInt16_mul_0x8000, ToInt16_mul_0x8000 by assumption.
    apply leb_negative in Hle. rewrite valid_opp in Hvx, Hvy.
    pose proof (leb_scaled my mx ey ex Hvy Hvx Hle) as Hscaled.
    apply Z.opp_le_mono. rewrite !Z.opp_involutive.
    apply Z.div_le_mono; [reflexivity |].
    apply round53_monotone; [lia | nia].
  - exfalso. now rewrite (leb_ltb_trans _ _ _ Hle Ly) in Lx.
  - (* both non-negative *)
    destruct (gtb y (of_Z 1)) eqn:Gy; [rewrite (quantize_above y Gy); lia |].
    assert (gtb x (of_Z 1) = false) as Gx.
    { destruct (gtb x (of_Z 1)) eqn:Gx; [| reflexivity].
      change (gtb x (of_Z 1)) with (ltb (of_Z 1) x) in Gx.
      change (gtb y (of_Z 1)) with (ltb (of_Z 1) y) in Gy.
      now rewrite (ltb_leb_trans _ _ _ Gx Hle) in Gy. }
    destruct x as [sx | sx | | sx mx ex]; try discriminate; try (destruct sx; discriminate).
    { replace (ToInt16 (quantize (S754_zero sx))) with 0 by (destruct sx; reflexivity).
      lia. }
    destruct y as [sy | sy | | sy my ey]; try discriminate; try (destruct sy; discriminate).
    { exfalso. rewrite ltb_finite_0 in Lx. subst sx. discriminate Hle. }
    rewrite ltb_finite_0 in Lx, Ly. subst sx sy.
    destruct (not_gtb_1 my ey Hvy Gy) as [Hy1 | Hey].
    { rewrite Hy1. change (ToInt16 (quantize (of_Z 1))) with 32767. lia. }
    destruct (not_gtb_1 mx ex Hvx Gx) as [Hx1 | Hex].
    { exfalso. rewrite Hx1, of_Z_1 in Hle. unfold leb, SFleb in Hle.
      cbn [SFcompare] in Hle.
      destruct (Z.compare_spec (-52) ey); (discriminate Hle || lia). }
    rewrite quantize_small_positive, quantize_small_positive by assumption.
    rewrite ToInt16_mul_0x7FFF, ToInt16_mul_0x7FFF by assumption.
    pose proof (leb_scaled mx my ex ey Hvx Hvy Hle) as Hscaled.
    apply Z.div_le_mono; [reflexivity |].
    apply round53_monotone; [lia | nia].
Qed.

(** X11.  Quantization is monotone: of two samples of an input that are
    valid doubles, the larger never encodes to the smaller integer. *)
Theorem larger_sample_never_smaller (data : list number) (sampleRate : option number)
    (i j : nat) (x y : number) :
  valid x = true -> valid y = true ->
  data !! i = Some x -> data !! j = Some y ->
  leb x y = true ->
  exists blob zi zj,
    encode data sampleRate = Normal blob /\
    getInt16 (blob_bytes blob) (44 + 2 * i) true = Some zi /\
    getInt16 (blob_bytes blob) (44 + 2 * j) true = Some zj /\
    zi <= zj.
Proof.
  intros Hvx Hvy Hi Hj Hle.
  eexists. exists (ToInt16 (quantize x)), (ToInt16 (quantize y)).
  split; [apply encode_spec |]. cbn [blob_bytes].
  split; [now apply getInt16_sample |]. split; [now apply getInt16_sample |].
  now apply quantize_monotone.
Qed.

Lemma larger_sample_never_smaller_witness :
  valid minus_three_halves = true /\ valid half = true /\
  [half; of_Z 1; minus_three_halves] !! 2%nat = Some minus_three_halves /\
  [half; of_Z 1; minus_three_halves] !! 0%nat = Some half /\
  leb minus_three_halves half = true /\
  exists blob zi zj,
    encode [half; of_Z 1; minus_three_halves] None = Normal blob /\
    getInt16 (blob_bytes blob) (44 + 2 * 2) true = Some zi /\
    getInt16 (blob_bytes blob) (44 + 2 * 0) true = Some zj /\
    zi <= zj.
Proof.
  repeat (split; [reflexivity |]).
  apply (larger_sample_never_smaller [half; of_Z 1; minus_three_halves] None 2 0
           minus_three_halves half); reflexivity.
Defined.



(** For a positive sample in [(0, 1]] the integer is the integer part of
    the exact product by [0x7FFF], or that plus one. *)
Lemma quantize_positive_bounds (m : positive) (e : Z) :
  valid (S754_finite false m e) = true ->
  gtb (S754_finite false m e) (of_Z 1) = false ->
  Z.shiftl (Zpos m * 32767) e <= ToInt16 (quantize (S754_finite false m e))
  <= Z.shiftl (Zpos m * 32767) e + 1.
Proof.
  intros Hv Hgt. destruct (not_gtb_1 m e Hv Hgt) as [Heq | He].
  { rewrite Heq. rewrite of_Z_1 in Heq. injection Heq as -> ->.
    change (ToInt16 (quantize (of_Z 1))) with 32767.
    change (Z.shiftl (4503599627370496 * 32767) (-52)) with 32767. lia. }
  rewrite quantize_small_positive, ToInt16_mul_0x7FFF by assumption.
  pose proof (valid_exponent _ _ _ Hv) as Hemin.
  destruct (valid_finite _ _ _ Hv) as [Hm _].
  set (P := Zpos m * 9006924376834048 * 2 ^ (e + 1074)).
  assert (P = Zpos m * 32767 * 2 ^ (e + 1112)) as HP.
  { unfold P. change 9006924376834048 with (32767 * 2 ^ 38).
    rewrite <- !Z.mul_assoc, <- Z.pow_add_r by lia. do 3 f_equal. lia. }
  assert (0 < 2 ^ (e + 1112)) as Hpow by (apply Z.pow_pos_nonneg; lia).
  assert (0 < P) as HPpos by (rewrite HP; lia).
  assert (Z.shiftl (Zpos m * 32767) e = P / 2 ^ 1112) as ->.
  { rewrite HP, Z.shiftl_div_pow2 by lia.
    replace 1112 with (- e + (e + 1112)) at 2 by lia.
    rewrite (Z.pow_add_r 2 (- e) (e + 1112)) by lia.
    symmetry. apply Z.div_mul_cancel_r; apply Z.pow_nonzero; lia. }
  unfold round53. set (G := grid 38 P).
  assert (38 <= G <= 1112) as HG.
  { unfold G, grid. split; [lia |]. apply Z.max_lub; [| lia].
    assert (Zdigits2 P <= 1165); [| lia].
    apply Zdigits2_le; [| lia]. split; [lia |].
    rewrite HP. change (2 ^ 1165) with (2 ^ 68 * 2 ^ 1097).
    assert (2 ^ (e + 1112) <= 2 ^ 1097) by (apply Z.pow_le_mono_r; lia).
    assert (Zpos m * 32767 < 2 ^ 68); [| nia].
    change (2 ^ 53) with 9007199254740992 in Hm.
    change (2 ^ 68) with 295147905179352825856. lia. }
  pose proof (rne_bounds P G) as HN.
  assert (0 < 2 ^ G) by (apply Z.pow_pos_nonneg; lia).
  assert (0 < 2 ^ (1112 - G)) by (apply Z.pow_pos_nonneg; lia).
  replace (2 ^ 1112) with (2 ^ (1112 - G) * 2 ^ G)
    by (rewrite <- Z.pow_add_r by lia; f_equal; lia).
  rewrite Z.div_mul_cancel_r by lia.
  rewrite (Z.mul_comm (2 ^ (1112 - G))), <- Z.div_div by lia.
  set (q := P / 2 ^ G) in *. set (c := 2 ^ (1112 - G)) in *.
  split; [apply Z.div_le_mono; lia |].
  apply Z.le_trans with ((q + 1 * c) / c).
  - apply Z.div_le_mono; nia.
  - rewrite Z.div_add by lia. lia.
Qed.

(** The sample nearest to 1/32767 shows the plus one: the exact product by
    32767 is below 1, the product rounded to a double is 1. *)
Example quantize_rounds_up :
  div (of_Z 1) (of_Z 32767) = S754_finite false 4503737070518400 (-67) /\
  Z.shiftl (4503737070518400 * 32767) (-67) = 0 /\
  ToInt16 (quantize (div (of_Z 1) (of_Z 32767))) = 1.
Proof. repeat split. Qed.



(** X13.  A positive sample in [(0, 1]] is quantized to the integer part of
    its exact product by 32767, or to that integer plus one (when the
    product, rounded to a double, reaches the next integer): for a valid
    double [m * 2^e] that is not above 1, the integer read back lies
    between [floor (m * 32767 * 2^e)] and that plus one. *)
Theorem positive_sample_bounds (data : list number) (sampleRate : option number)
    (i : nat) (m : positive) (e : Z) :
  valid (S754_finite false m e) = true ->
  gtb (S754_finite false m e) (of_Z 1) = false ->
  data !! i = Some (S754_finite false m e) ->
  exists blob z,
    encode data sampleRate = Normal blob /\
    getInt16 (blob_bytes blob) (44 + 2 * i) true = Some z /\
    Z.shiftl (Zpos m * 32767) e <= z <= Z.shiftl (Zpos m * 32767) e + 1.
Proof.
  intros Hv Hgt Hi. eexists. exists (ToInt16 (quantize (S754_finite false m e))).
  split; [apply encode_spec |]. cbn [blob_bytes].
  split; [now apply getInt16_sample |].
  now apply quantize_positive_bounds.
Qed.

Lemma positive_sample_bounds_witness :
  valid (S754_finite false 6755399441055744 (-53)) = true /\
  gtb (S754_finite false 6755399441055744 (-53)) (of_Z 1) = false /\
  [S754_finite false 6755399441055744 (-53)] !! 0%nat
  = Some (S754_finite false 6755399441055744 (-53)) /\
  exists blob z,
    encode [S754_finite false 6755399441055744 (-53)] None = Normal blob /\
    getInt16 (blob_bytes blob) (44 + 2 * 0) true = Some z /\
    Z.shiftl (Zpos 6755399441055744 * 32767) (-53) <= z
    <= Z.shiftl (Zpos 6755399441055744 * 32767) (-53) + 1.
Proof.
  repeat (split; [reflexivity |]).
  apply (positive_sample_bounds [S754_finite false 6755399441055744 (-53)] None 0
           6755399441055744 (-53)); reflexivity.
Defined.

End Monotone.
